(** * Article-injection form of the MonitoRSS control panel

    A shallow embedding of the article-injections tab
    ([ArticleInjectionsTabSection], [ArticleTabInjectionForm],
    [SelectorForm], [formSchema]) and of the feed-update REST client
    ([updateFeed]), with the properties their specification states.

    The form values are plain records and lists; the yup schema becomes a
    function from the form values to the list of every failed test (the
    resolver runs the schema with [abortEarly: false]), of which the
    resolver keeps the first of each field; the field-array operations of
    react-hook-form act on lists by position, and each component that
    opens a field array holds its own copy of the list; the submit
    handler threads an explicit controller state. *)

From stdpp Require Import base list strings.

(** ** Data model *)

(** One selector row: [{ id, label, cssSelector }]. *)
Record Selector := mkSelector {
  selector_id : string;
  label : string;
  cssSelector : string;
}.

(** One injection: [{ id, sourceField, selectors }] ([ArticleInjection]). *)
Record ArticleInjection := mkArticleInjection {
  injection_id : string;
  sourceField : string;
  selectors : list Selector;
}.

(** [FormData = InferType<typeof formSchema>]: [{ injections }]. *)
Record FormData := mkFormData {
  injections : list ArticleInjection;
}.

Global Instance Selector_eq_dec : EqDecision Selector.
Proof. solve_decision. Defined.

Global Instance ArticleInjection_eq_dec : EqDecision ArticleInjection.
Proof. solve_decision. Defined.

Global Instance FormData_eq_dec : EqDecision FormData.
Proof. solve_decision. Defined.

(** ** The validation schema [formSchema] *)

(** The field a validation error is attached to, as yup's error path:
    [injections[i].id], [injections[i].sourceField],
    [injections[i].selectors], [injections[i].selectors[j].id],
    [...selectors[j].label], [...selectors[j].cssSelector]. *)
Inductive Path :=
  | injection_id_path (i : nat)
  | sourceField_path (i : nat)
  | selectors_path (i : nat)
  | selector_id_path (i j : nat)
  | label_path (i j : nat)
  | cssSelector_path (i j : nat).

(** The name of the failed test: yup's [required], [min], and the custom
    test the schema registers under the name ["unique"]. *)
Inductive TestName := required | min | unique.

(** A failed test.  [message] is [Some m] where the schema gives the
    message and [None] where yup's default message applies. *)
Record ValidationError := mkValidationError {
  path : Path;
  type : TestName;
  message : option string;
}.

Global Instance Path_eq_dec : EqDecision Path.
Proof. solve_decision. Defined.

Global Instance TestName_eq_dec : EqDecision TestName.
Proof. solve_decision. Defined.

Global Instance ValidationError_eq_dec : EqDecision ValidationError.
Proof. solve_decision. Defined.

(** [string().required()]: the value must have a non-zero length. *)
Definition string_required (value : string) : bool :=
  negb (String.length value =? 0).

(** The body of [.test("unique", ...)] on [label].  [parent] is
    [context.from[1].value], the injection the selector belongs to:
<<
    const names = selectors.map((s) => s.label);
    return !names.length || names.filter((n) => n === value).length === 1;
>> *)
Definition unique_test (value : string) (parent : ArticleInjection) : bool :=
  let names := label <$> selectors parent in
  (length names =? 0) || (length (filter (λ n, n = value) names) =? 1).

(** Run one test: no error when it passes, one error at [p] otherwise. *)
Definition run_test (passes : bool) (p : Path) (ty : TestName)
    (msg : option string) : list ValidationError :=
  if passes then [] else [mkValidationError p ty msg].

Definition required_message : string := "This is a required field".
Definition duplicate_message : string :=
  "Cannot have duplicate placeholder labels".

(** The error the ["unique"] test leaves on [injections[i].selectors[j].label]. *)
Definition duplicate_label_error (i j : nat) : ValidationError :=
  mkValidationError (label_path i j) unique (Some duplicate_message).

(** The selector object schema, for the selector at position [j] of the
    injection [parent] at position [i]. *)
Definition validate_selector (i : nat) (parent : ArticleInjection)
    (j : nat) (s : Selector) : list ValidationError :=
  run_test (string_required (selector_id s)) (selector_id_path i j) required None
  ++ run_test (string_required (label s)) (label_path i j) required
       (Some required_message)
  ++ run_test (unique_test (label s) parent) (label_path i j) unique
       (Some duplicate_message)
  ++ run_test (string_required (cssSelector s)) (cssSelector_path i j) required
       (Some required_message).

(** The injection object schema.  The form values always hold a list under
    [selectors], so [.required()] on the array adds no failure that
    [.min(1)] does not report (older yup versions report the empty array
    under both names). *)
Definition validate_injection (i : nat) (inj : ArticleInjection)
    : list ValidationError :=
  run_test (string_required (injection_id inj)) (injection_id_path i) required None
  ++ run_test (string_required (sourceField inj)) (sourceField_path i) required None
  ++ run_test (1 <=? length (selectors inj)) (selectors_path i) min None
  ++ mjoin (imap (validate_selector i inj) (selectors inj)).

(** [formSchema]: every failed test of the whole form.  The failures of
    one field come in the order its tests are registered; the order
    between different fields is not yup's (which reports nested fields
    first) and nothing below reads it. *)
Definition validate (form : FormData) : list ValidationError :=
  mjoin (imap validate_injection (injections form)).

(** ** Field-array operations

    [useFieldArray({ name: `injections.${injectionIndex}.selectors` })]
    gives [append] and [remove] on the selector list of one injection. *)

(** [append(value)]: the value becomes the last entry. *)
Definition append {A} (fields : list A) (value : A) : list A :=
  fields ++ [value].

(** [remove(index)]: the entry at [index] is spliced out
    ([temp.splice(index, 1)]); an index past the end removes nothing. *)
Fixpoint remove {A} (index : nat) (fields : list A) {struct fields}
    : list A :=
  match fields with
  | [] => []
  | x :: rest =>
      match index with
      | 0 => rest
      | S k => x :: remove k rest
      end
  end.

Definition set_selectors (f : list Selector → list Selector)
    (inj : ArticleInjection) : ArticleInjection :=
  mkArticleInjection (injection_id inj) (sourceField inj) (f (selectors inj)).

(** A field-array operation [f] applied at
    [injections[injectionIndex].selectors].  The components that call it
    are mounted once per injection of the form, so [injectionIndex] is a
    position of the list; at an index past the end, where react-hook-form
    would create the path, no component exists and the model leaves the
    form as it is. *)
Definition update_selectors (injectionIndex : nat)
    (f : list Selector → list Selector) (form : FormData) : FormData :=
  mkFormData (alter (set_selectors f) injectionIndex (injections form)).

(** Every id of the form: the injections' and the selectors'. *)
Definition injection_ids (inj : ArticleInjection) : list string :=
  injection_id inj :: (selector_id <$> selectors inj).

Definition form_ids (form : FormData) : list string :=
  mjoin (injection_ids <$> injections form).

(** ** [ArticleTabInjectionForm] and [SelectorForm] *)

(** The "Add selector" button.  [v4] is the value this call of uuid's
    [v4()] returns:
<<
    append({ id: v4(), label: "", cssSelector: "" })
>> *)
Definition add_selector_onClick (v4 : string) (injectionIndex : nat)
    (form : FormData) : FormData :=
  update_selectors injectionIndex
    (λ fields, append fields (mkSelector v4 "" "")) form.

(** [isDisabled={selectors.length === 1}] of the row's delete button.
    [fields] is the [selectors] of the row: the [fields] of the
    [useFieldArray] that [SelectorForm] itself opens on the injection's
    selector list. *)
Definition delete_isDisabled (fields : list Selector) : bool :=
  length fields =? 1.

(** [onClick={() => remove(selectorIndex)}] of the row's delete button. *)
Definition delete_onClick (injectionIndex selectorIndex : nat)
    (form : FormData) : FormData :=
  update_selectors injectionIndex (remove selectorIndex) form.

(** A click on the delete button of row [selectorIndex] of injection
    [injectionIndex], whose own field array holds [fields]: a disabled
    button does not run its handler; the handler removes from the list
    the form holds, not from [fields]. *)
Definition click_delete (fields : list Selector)
    (injectionIndex selectorIndex : nat) (form : FormData) : FormData :=
  if delete_isDisabled fields then form
  else delete_onClick injectionIndex selectorIndex form.

(** The [fields] of a row.  A [useFieldArray] takes its [fields] from the
    form values when its component mounts and afterwards changes them
    only in its own [append] and [remove]: the [append] of
    [ArticleTabInjectionForm] does not reach the rows that are mounted.
    [live] is the injection's selector list and [appended] the number of
    its rows added since its rows mounted: a row that was there at the
    mount holds the list of then, an added row the list up to itself.
    (The texts typed since are not in the list a row holds; the row
    reads its length only.) *)
Definition row_fields (appended selectorIndex : nat) (live : list Selector)
    : list Selector :=
  take (Nat.max (length live - appended) (S selectorIndex)) live.

(** [watch] of a row gives the selector at the row's position, or
    [undefined] when the form has none there. *)
Definition watch_selector (form : FormData) (injectionIndex selectorIndex : nat)
    : option Selector :=
  injections form !! injectionIndex ≫= λ inj, selectors inj !! selectorIndex.

(** The render of a row reads [selector.cssSelector] and
    [selector.label]: it throws when the watched selector is
    [undefined]. *)
Definition SelectorForm_throws (form : FormData)
    (injectionIndex selectorIndex : nat) : bool :=
  bool_decide (watch_selector form injectionIndex selectorIndex = None).

(** [ArticleTabInjectionForm] renders one row per entry of its own
    [fields] ([selectors?.map]); [rows] is their number.  The render
    throws when one of the rows does. *)
Definition rows_throw (form : FormData) (injectionIndex rows : nat) : bool :=
  existsb (SelectorForm_throws form injectionIndex) (seq 0 rows).

(** The "Delete" button of an injection: [remove(fieldIndex)] on the
    top-level field array. *)
Definition delete_injection_onClick (fieldIndex : nat) (form : FormData)
    : FormData :=
  mkFormData (remove fieldIndex (injections form)).

(** The invariant of the data model: every injection keeps a selector. *)
Definition selectors_nonempty (form : FormData) : Prop :=
  Forall (λ inj, 1 ≤ length (selectors inj)) (injections form).

(** *** The preview input of a selector row *)

(** The factory of [previewInput]:
<<
    [{ id: injection.id, selectors: [selector],
       sourceField: injection.sourceField }]
>> *)
Definition previewInput_factory (injection : ArticleInjection)
    (selector : Selector) : list ArticleInjection :=
  [mkArticleInjection (injection_id injection) (sourceField injection)
     [selector]].

(** Its dependency array:
    [[injection.sourceField, selector.cssSelector, selector.label]]. *)
Definition previewInput_deps (injection : ArticleInjection)
    (selector : Selector) : string * string * string :=
  (sourceField injection, cssSelector selector, label selector).

(** The cell React keeps for one [useMemo] call of one component
    instance: the dependencies and the value of the last computation. *)
Record Memo (D V : Type) := mkMemo {
  memo_deps : D;
  memo_value : V;
}.
Arguments mkMemo {D V}.
Arguments memo_deps {D V}.
Arguments memo_value {D V}.

(** [useMemo(factory, deps)]: on mount, or when a dependency differs from
    the stored one, the factory runs and its result is stored; otherwise
    the stored value is returned.  The boolean tells whether the factory
    ran. *)
Definition useMemo {D V} `{EqDecision D} (cell : option (Memo D V))
    (factory : unit → V) (deps : D) : Memo D V * bool :=
  match cell with
  | Some m =>
      if decide (memo_deps m = deps) then (m, false)
      else (mkMemo deps (factory ()), true)
  | None => (mkMemo deps (factory ()), true)
  end.

Definition PreviewCell : Type :=
  Memo (string * string * string) (list ArticleInjection).

(** One render of [SelectorForm] with the watched [injection] and
    [selector], as far as [previewInput] goes. *)
Definition render_previewInput (cell : option PreviewCell)
    (injection : ArticleInjection) (selector : Selector)
    : PreviewCell * bool :=
  useMemo cell (λ _, previewInput_factory injection selector)
    (previewInput_deps injection selector).

(** The successive renders of one row instance, from its mount on; the
    result is the cell after the last render. *)
Fixpoint render_all (cell : option PreviewCell)
    (renders : list (ArticleInjection * Selector)) : option PreviewCell :=
  match renders with
  | [] => cell
  | (injection, selector) :: rest =>
      render_all (Some (render_previewInput cell injection selector).1) rest
  end.

(** A row instance is keyed by its selector's id ([key={s.id}]) inside an
    accordion item keyed by the injection's id ([key={a.id}]): all renders
    of one instance watch the same two ids. *)
Definition same_row (injId selId : string)
    (renders : list (ArticleInjection * Selector)) : Prop :=
  Forall (λ r, injection_id r.1 = injId ∧ selector_id r.2 = selId) renders.

(** The cell of the row instance [(injId, selId)] holds what some render
    of that row computed. *)
Definition cell_of_row (injId selId : string) (cell : PreviewCell) : Prop :=
  ∃ injection selector,
    injection_id injection = injId ∧ selector_id selector = selId ∧
    memo_deps cell = previewInput_deps injection selector ∧
    memo_value cell = previewInput_factory injection selector.

(** ** [ArticleInjectionsTabSection]: submitting the form *)

(** What [notifySuccess] and [notifyError] were called with. *)
Inductive Notification :=
  | success_notification (title : string)
  | error_notification (title description : string).

(** The argument of [mutateAsync]:
    [{ feedId, data: { articleInjections } }]. *)
Record UpdateUserFeedInput := mkUpdateUserFeedInput {
  feedId : string;
  data_articleInjections : list ArticleInjection;
}.

(** How the promise of [mutateAsync] settles; [err_message] is the
    [message] of the error it rejects with. *)
Inductive Settled :=
  | Fulfilled
  | Rejected (err_message : string).

(** What the component takes from its surroundings: the loaded feed's id
    ([userFeed.id]), the translation function [t], and the update client
    [mutateAsync] of [useUpdateUserFeed], whose outcome may depend on the
    calls made before. *)
Record Environment := mkEnvironment {
  userFeed_id : string;
  t : string → string;
  mutateAsync : list UpdateUserFeedInput → UpdateUserFeedInput → Settled;
}.

(** What [formState.errors] holds for one field:
    [errors.injections[i].selectors[j].label] is [{ type, message }]. *)
Record FieldError := mkFieldError {
  error_type : TestName;
  error_message : option string;
}.

(** [formState.errors], read field by field; [None] is a field without
    an error. *)
Definition FieldErrors : Type := Path → option FieldError.

Definition no_errors : FieldErrors := λ _, None.

(** The yup resolver turns the failures the schema reports into
    [formState.errors]: going through them in order, a field keeps the
    first failure reported on it
    ([if (!previous[error.path]) previous[error.path] = { message, type }]). *)
Fixpoint parseErrorSchema (inner : list ValidationError) : FieldErrors :=
  match inner with
  | [] => no_errors
  | e :: rest =>
      λ p, if decide (path e = p)
           then Some (mkFieldError (type e) (message e))
           else parseErrorSchema rest p
  end.

(** The state of the form controller ([useForm]), with the notifications
    shown and the calls made to the update client so far. *)
Record Controller := mkController {
  values : FormData;
  defaultValues : FormData;
  errors : FieldErrors;
  notifications : list Notification;
  remote_calls : list UpdateUserFeedInput;
}.

(** [formState.isDirty]: the values differ from the default values. *)
Definition isDirty (st : Controller) : bool :=
  bool_decide (values st ≠ defaultValues st).

(** [reset(data)]: [data] becomes both the values and the default values,
    and the errors are cleared. *)
Definition reset (data : FormData) (st : Controller) : Controller :=
  mkController data data no_errors (notifications st) (remote_calls st).

Definition notifySuccess (title : string) (st : Controller) : Controller :=
  mkController (values st) (defaultValues st) (errors st)
    (notifications st ++ [success_notification title]) (remote_calls st).

Definition notifyError (title description : string) (st : Controller)
    : Controller :=
  mkController (values st) (defaultValues st) (errors st)
    (notifications st ++ [error_notification title description])
    (remote_calls st).

Definition record_call (input : UpdateUserFeedInput) (st : Controller)
    : Controller :=
  mkController (values st) (defaultValues st) (errors st) (notifications st)
    (remote_calls st ++ [input]).

Definition set_errors (errs : FieldErrors) (st : Controller)
    : Controller :=
  mkController (values st) (defaultValues st) errs (notifications st)
    (remote_calls st).

(** [onSubmit]:
<<
    try {
      await mutateAsync({ feedId: userFeed.id,
                          data: { articleInjections: data.injections } });
      reset(data);
      notifySuccess(t("common.success.savedChanges"));
    } catch (err) {
      notifyError(t("common.errors.failedToSave"), (err as Error).message);
    }
>> *)
Definition onSubmit_input (env : Environment) (data : FormData)
    : UpdateUserFeedInput :=
  mkUpdateUserFeedInput (userFeed_id env) (injections data).

Definition onSubmit (env : Environment) (data : FormData) (st : Controller)
    : Controller :=
  let input := onSubmit_input env data in
  match mutateAsync env (remote_calls st) input with
  | Fulfilled =>
      notifySuccess (t env "common.success.savedChanges")
        (reset data (record_call input st))
  | Rejected err_message =>
      notifyError (t env "common.errors.failedToSave") err_message
        (record_call input st)
  end.

(** [handleSubmit(onValid)] with the yup resolver: the schema runs on the
    current values; with no failure the errors are cleared and [onValid]
    runs on the values; otherwise the resolver's errors (the first
    failure of each field) are stored and [onValid] does not run. *)
Definition handleSubmit (onValid : FormData → Controller → Controller)
    (st : Controller) : Controller :=
  match validate (values st) with
  | [] => onValid (values st) (set_errors no_errors st)
  | errs => set_errors (parseErrorSchema errs) st
  end.

(** The form's [onSubmit={handleSubmit(onSubmit)}]. *)
Definition submit (env : Environment) (st : Controller) : Controller :=
  handleSubmit (onSubmit env) st.

(** ** The feed-update REST client [updateFeed] *)

Module UpdateFeed.

#[local] Set Warnings "-register-all".
(** JSON values: what [JSON.stringify] serializes and what a response
    body parses to. *)
Inductive json :=
  | JNull
  | JBool (b : bool)
  | JNumber (n : Z)
  | JString (s : string)
  | JArray (items : list json)
  | JObject (members : list (string * json)).
#[local] Set Warnings "register-all".

(** The member of an object under a key, if any. *)
Fixpoint member (key : string) (members : list (string * json))
    : option json :=
  match members with
  | [] => None
  | (k, v) :: rest => if decide (k = key) then Some v else member key rest
  end.

(** Modelled from the spec: [Feed['text']], declared in [../types], is
    the text of the feed, a string. *)
Definition FeedText : Type := string.

(** A JavaScript object as [JSON.stringify] reads it: its members in
    their order, each holding a value or [undefined] ([None]). *)
Definition Object : Type := list (string * option json).

(** [UpdateFeedInput]: [{ feedId, details }].  [details] is declared
    [{ text?: Feed['text'] }]; the declaration is erased when the code
    runs and admits an object with further members, so [details] is the
    object the caller hands over. *)
Record UpdateFeedInput := mkUpdateFeedInput {
  feedId : string;
  details : Object;
}.

(** What the declaration asks of [details]: a [text] member, where there
    is one with a value, holds a feed text. *)
Definition details_declared (d : Object) : Prop :=
  ∀ v, ("text", Some v) ∈ d → ∃ t : FeedText, v = JString t.

(** [JSON.stringify] leaves out the members that hold [undefined]. *)
Fixpoint defined_members (o : Object) : list (string * json) :=
  match o with
  | [] => []
  | (key, Some v) :: rest => (key, v) :: defined_members rest
  | (_, None) :: rest => defined_members rest
  end.

(** The value [JSON.stringify(options.details)] serializes. *)
Definition details_json (d : Object) : json :=
  JObject (defined_members d).

Inductive Method := GET | POST | PUT | PATCH | DELETE.

Record Request := mkRequest {
  url : string;
  method : Method;
  body : string;
}.

(** A response: whether its status is a success one, and its parsed
    body. *)
Record Response := mkResponse {
  ok : bool;
  response_json : json;
}.

Inductive FetchError := TransportError | SchemaMismatch.

(** What [updateFeed] takes from its surroundings: [JSON.stringify],
    the feed schema [FeedSchema] of [../types], and the server. *)
Record Externals := mkExternals {
  JSON_stringify : json → string;
  FeedSchema : json → bool;
  server : Request → Response;
}.

(** [UpdatFeedOutputSchema = object({ result: FeedSchema })]: the body
    is an object whose [result] member the feed schema accepts. *)
Definition UpdatFeedOutputSchema (ext : Externals) (body : json) : bool :=
  match body with
  | JObject members =>
      match member "result" members with
      | Some result => FeedSchema ext result
      | None => false
      end
  | _ => false
  end.

(** Modelled from the spec: [fetchRest] of [@/utils/fetchRest] is not
    part of the sources.  It sends the one request it is given, fails
    on a non-success status, validates the response body against
    [validateSchema] and fails on a mismatch, and otherwise returns the
    body.  The first component lists the requests sent. *)
Definition fetchRest (ext : Externals) (url : string) (method : Method)
    (body : string) (validateSchema : json → bool)
    : list Request * (FetchError + json) :=
  let request := mkRequest url method body in
  let response := server ext request in
  ([request],
   if ok response then
     if validateSchema (response_json response)
     then inr (response_json response)
     else inl SchemaMismatch
   else inl TransportError).

(** [updateFeed]:
<<
  fetchRest(`/api/v1/feeds/${options.feedId}`, {
    requestOptions: { method: 'PATCH',
                      body: JSON.stringify(options.details) },
    validateSchema: UpdatFeedOutputSchema })
>> *)
Definition updateFeed (ext : Externals) (options : UpdateFeedInput)
    : list Request * (FetchError + json) :=
  fetchRest ext ("/api/v1/feeds/" +:+ feedId options) PATCH
    (JSON_stringify ext (details_json (details options)))
    (UpdatFeedOutputSchema ext).

(** The members of the object a JSON value is; none for other values. *)
Definition object_members (v : json) : list (string * json) :=
  match v with
  | JObject members => members
  | _ => []
  end.

(** A server that answers every request with a success status and a
    body holding a [result], and externals built on it. *)
Definition sample_response : Response :=
  mkResponse true (JObject [("result", JObject [("id", JString "feed-1")])]).

(** A [details] object with a text, and one that carries the injections
    of the form as well. *)
Definition text_details : Object := [("text", Some (JString "hello"))].

Definition injections_details : Object :=
  [("text", Some (JString "hello"));
   ("articleInjections",
    Some (JArray
            [JObject
               [("id", JString "inj-1"); ("sourceField", JString "title");
                ("selectors", JArray [])]]))].

Definition sample_externals : Externals :=
  mkExternals
    (λ v, match object_members v with [] => "{}" | _ => "{...}" end)
    (λ _, true)
    (λ _, sample_response).

End UpdateFeed.

(** ** What the schema accepts *)

(** A selector the schema has nothing to say about on its own: its three
    strings are non-empty. *)
Definition selector_filled (s : Selector) : Prop :=
  selector_id s ≠ "" ∧ label s ≠ "" ∧ cssSelector s ≠ "".

Definition injection_acceptable (inj : ArticleInjection) : Prop :=
  injection_id inj ≠ "" ∧ sourceField inj ≠ "" ∧
  selectors inj ≠ [] ∧
  Forall selector_filled (selectors inj) ∧
  NoDup (label <$> selectors inj).

Definition form_acceptable (form : FormData) : Prop :=
  Forall injection_acceptable (injections form).

(** The path names a field of the form. *)
Definition path_in_form (form : FormData) (p : Path) : Prop :=
  match p with
  | injection_id_path i | sourceField_path i | selectors_path i =>
      is_Some (injections form !! i)
  | selector_id_path i j | label_path i j | cssSelector_path i j =>
      ∃ inj, injections form !! i = Some inj ∧ is_Some (selectors inj !! j)
  end.

(** ** The editing session *)

(** The inputs of a selector row: the [Controller] registered under
    [injections.${i}.selectors.${j}.label] (or [.cssSelector]) writes the
    typed text into that field of the form values. *)
Definition set_label (value : string) (s : Selector) : Selector :=
  mkSelector (selector_id s) value (cssSelector s).

Definition set_cssSelector (value : string) (s : Selector) : Selector :=
  mkSelector (selector_id s) (label s) value.

Definition label_onChange (injectionIndex selectorIndex : nat)
    (value : string) (form : FormData) : FormData :=
  update_selectors injectionIndex (alter (set_label value) selectorIndex) form.

Definition cssSelector_onChange (injectionIndex selectorIndex : nat)
    (value : string) (form : FormData) : FormData :=
  update_selectors injectionIndex
    (alter (set_cssSelector value) selectorIndex) form.

(** The mounted tab: the form values, the accordion's [activeIndex]
    ([undefined] is [None]), for each injection the number of rows added
    since its rows mounted (none where the list has no entry), and
    whether a render has thrown, after which the tab is gone. *)
Record TabState := mkTabState {
  tab_form : FormData;
  activeIndex : option nat;
  appended : list nat;
  crashed : bool;
}.

Definition rows_appended (st : TabState) (injectionIndex : nat) : nat :=
  default 0 (appended st !! injectionIndex).

(** [appended] with explicit entries up to position [n]. *)
Definition pad (n : nat) (appended : list nat) : list nat :=
  appended ++ replicate (n - length appended) 0.

(** [onSubmitted] of the create-injection modal.  [v4_injection] and
    [v4_selector] are what the two calls of [v4()] return; [fields] is
    the injection list of the render the handler was created in:
<<
    append({ id: v4(), sourceField: data.sourceField,
             selectors: [{ id: v4(), label: "", cssSelector: "" }] });
    setActiveIndex(fields.length);
>> *)
Definition onSubmitted (v4_injection v4_selector : string)
    (data_sourceField : string) (st : TabState) : TabState :=
  let fields := injections (tab_form st) in
  mkTabState
    (mkFormData
       (append fields
          (mkArticleInjection v4_injection data_sourceField
             [mkSelector v4_selector "" ""])))
    (Some (length fields))
    (<[length fields := 0]> (pad (S (length fields)) (appended st)))
    (crashed st).

(** The "Delete" button of an injection:
    [remove(fieldIndex); setActiveIndex(undefined)]. *)
Definition delete_injection_click (fieldIndex : nat) (st : TabState)
    : TabState :=
  mkTabState (delete_injection_onClick fieldIndex (tab_form st)) None
    (remove fieldIndex (appended st)) (crashed st).

(** The "Add selector" button of injection [injectionIndex], with the
    count of its added rows. *)
Definition add_selector_click (injectionIndex : nat) (v4 : string)
    (st : TabState) : TabState :=
  mkTabState (add_selector_onClick v4 injectionIndex (tab_form st))
    (activeIndex st)
    (alter S injectionIndex (pad (S injectionIndex) (appended st)))
    (crashed st).

(** A click on the delete button of a rendered row, and the render that
    follows.  The button goes by the row's own [fields].  The row's
    [remove] does not reach the [fields] of [ArticleTabInjectionForm],
    which still lists as many rows as before the click: the render
    throws when the form has no selector left for one of them. *)
Definition delete_row_click (injectionIndex selectorIndex : nat)
    (st : TabState) : TabState :=
  match injections (tab_form st) !! injectionIndex with
  | Some inj =>
      if bool_decide (selectorIndex < length (selectors inj)) then
        let fields :=
          row_fields (rows_appended st injectionIndex) selectorIndex
            (selectors inj) in
        let form' :=
          click_delete fields injectionIndex selectorIndex (tab_form st) in
        mkTabState form' (activeIndex st) (appended st)
          (rows_throw form' injectionIndex (length (selectors inj)))
      else st
  | None => st
  end.

(** What the user can do to the form in the tab. *)
Inductive Action :=
  | ChangeLabel (injectionIndex selectorIndex : nat) (value : string)
  | ChangeCssSelector (injectionIndex selectorIndex : nat) (value : string)
  | AddSelector (injectionIndex : nat) (v4 : string)
  | ClickDeleteSelector (injectionIndex selectorIndex : nat)
  | AddInjection (v4_injection v4_selector data_sourceField : string)
  | ClickDeleteInjection (fieldIndex : nat).

Definition with_form (form : FormData) (st : TabState) : TabState :=
  mkTabState form (activeIndex st) (appended st) (crashed st).

(** One action; once a render has thrown there is no tab to act on. *)
Definition step (st : TabState) (a : Action) : TabState :=
  if crashed st then st
  else
    match a with
    | ChangeLabel i j value =>
        with_form (label_onChange i j value (tab_form st)) st
    | ChangeCssSelector i j value =>
        with_form (cssSelector_onChange i j value (tab_form st)) st
    | AddSelector i v4 => add_selector_click i v4 st
    | ClickDeleteSelector i j => delete_row_click i j st
    | AddInjection v4_injection v4_selector data_sourceField =>
        onSubmitted v4_injection v4_selector data_sourceField st
    | ClickDeleteInjection i => delete_injection_click i st
    end.

(** A session of actions on the mounted tab, with no submit in
    between. *)
Definition run (st : TabState) (actions : list Action) : TabState :=
  foldl step st actions.

(** The ids the generator returns during an action. *)
Definition action_ids (a : Action) : list string :=
  match a with
  | AddSelector _ v4 => [v4]
  | AddInjection v4_injection v4_selector _ => [v4_injection; v4_selector]
  | _ => []
  end.

(** Along the actions, the generator never returns an id the form holds
    at that moment, nor the same id twice within one action. *)
Fixpoint generator_fresh (st : TabState) (actions : list Action) : Prop :=
  match actions with
  | [] => True
  | a :: rest =>
      NoDup (action_ids a) ∧
      (∀ x, x ∈ action_ids a → x ∉ form_ids (tab_form st)) ∧
      generator_fresh (step st a) rest
  end.

(** The actions on the rows of an injection, which leave the list of
    injections as such alone. *)
Definition is_row_action (a : Action) : bool :=
  match a with
  | AddInjection _ _ _ | ClickDeleteInjection _ => false
  | _ => true
  end.

(** The two text inputs. *)
Definition is_edit (a : Action) : bool :=
  match a with
  | ChangeLabel _ _ _ | ChangeCssSelector _ _ _ => true
  | _ => false
  end.

(** ** The initial state of the form *)

(** The [defaultValues] given to [useForm]:
<<
    (userFeed?.articleInjections || []).map((i) => ({
      id: i.id, sourceField: i.sourceField,
      selectors: i.selectors.map((f) => ({
        id: f.id, label: f.label, cssSelector: f.cssSelector })) }))
>>
    [None] is a feed without an [articleInjections] property. *)
Definition initial_injections
    (userFeed_articleInjections : option (list ArticleInjection))
    : list ArticleInjection :=
  (λ i, mkArticleInjection (injection_id i) (sourceField i)
          ((λ f, mkSelector (selector_id f) (label f) (cssSelector f))
             <$> selectors i))
    <$> default [] userFeed_articleInjections.

(** The controller right after [useForm]: the values are the default
    values, nothing has been validated, shown or sent. *)
Definition useForm_initial
    (userFeed_articleInjections : option (list ArticleInjection))
    : Controller :=
  let form := mkFormData (initial_injections userFeed_articleInjections) in
  mkController form form no_errors [] [].

(** The controller after the user's actions on the form: only the values
    move. *)
Definition with_values (form : FormData) (st : Controller) : Controller :=
  mkController form (defaultValues st) (errors st) (notifications st)
    (remote_calls st).

(** ** Sample form states *)

(** An injection on [title] whose two selectors share the label [img],
    and an injection on [description] with a single [img] selector. *)
Definition title_injection : ArticleInjection :=
  mkArticleInjection "inj-1" "title"
    [mkSelector "sel-1" "img" "img"; mkSelector "sel-2" "img" "a"].

Definition description_injection : ArticleInjection :=
  mkArticleInjection "inj-2" "description" [mkSelector "sel-3" "img" "p"].

Definition duplicate_form : FormData :=
  mkFormData [title_injection; description_injection].

(** The same form with the second label changed to [link]: it passes
    the schema. *)
Definition ordered_injection : ArticleInjection :=
  mkArticleInjection "inj-1" "title"
    [mkSelector "sel-1" "img" "img"; mkSelector "sel-2" "link" "a"].

Definition valid_form : FormData :=
  mkFormData [ordered_injection; description_injection].

(** [ordered_injection] with its selectors swapped, and with the ids and
    the CSS selectors rewritten. *)
Definition swapped_injection : ArticleInjection :=
  mkArticleInjection "inj-1" "title"
    [mkSelector "sel-2" "link" "a"; mkSelector "sel-1" "img" "img"].

Definition rewritten_injection : ArticleInjection :=
  mkArticleInjection "inj-1" "title"
    [mkSelector "sel-8" "img" "picture"; mkSelector "sel-9" "link" "nav a"].

(** A form one of whose injections has lost all its selectors. *)
Definition hollow_form : FormData :=
  mkFormData [mkArticleInjection "inj-1" "title" []].

Definition sample_controller (form : FormData) : Controller :=
  mkController form (mkFormData []) no_errors [] [].

(** An environment whose update client accepts every call, and one whose
    client rejects every call with the message [Bad Gateway]. *)
Definition accepting_env : Environment :=
  mkEnvironment "feed-1" (λ key, key) (λ _ _, Fulfilled).

Definition rejecting_env : Environment :=
  mkEnvironment "feed-1" (λ key, key) (λ _ _, Rejected "Bad Gateway").

(** A version-4 UUID, as [v4()] returns them, and a form that already
    holds it as the id of a selector. *)
Definition sample_uuid : string := "110ec58a-a0f2-4ac4-8393-c866d813b8d1".

Definition form_holding_uuid : FormData :=
  mkFormData
    [mkArticleInjection "inj-1" "title" [mkSelector sample_uuid "img" "img"]].

(** An update client that rejects the first call it gets and accepts the
    later ones. *)
Definition flaky_env : Environment :=
  mkEnvironment "feed-1" (λ key, key)
    (λ calls _, match calls with [] => Rejected "Bad Gateway" | _ => Fulfilled end).

(** A session on [valid_form]: a row and an injection are added, texts
    are typed, an injection and then a row are deleted. *)
Definition sample_session : list Action :=
  [AddSelector 0 "sel-4"; ChangeLabel 0 2 "caption";
   ChangeCssSelector 0 2 "figcaption";
   AddInjection "inj-3" "sel-5" "summary";
   ClickDeleteInjection 1; ClickDeleteSelector 0 2].

(** A form with one injection that has one selector. *)
Definition single_selector_form : FormData :=
  mkFormData
    [mkArticleInjection "inj-1" "title" [mkSelector "sel-1" "img" "img"]].

(** The tab as it mounts on a form. *)
Definition mounted_tab (form : FormData) : TabState :=
  mkTabState form None [] false.

Definition sample_row_session : list Action :=
  [AddSelector 0 "sel-4"; ChangeLabel 0 2 "caption";
   ChangeCssSelector 1 0 "article p"; ClickDeleteSelector 0 2].

(** * Properties *)

(** ** Counting the occurrences of a value in a list *)

Section Occurrences.
Context {A : Type} `{EqDecision A}.
Implicit Types (l : list A) (v : A).

Lemma occurs_at_least_once l j v :
  l !! j = Some v → 1 ≤ length (filter (λ n, n = v) l).
Proof.
  intros Hj.
  assert (Hin : v ∈ filter (λ n, n = v) l).
  { apply list_elem_of_filter. split; [done|]. by eapply list_elem_of_lookup_2. }
  destruct (filter (λ n, n = v) l); [by apply not_elem_of_nil in Hin|].
  simpl. lia.
Qed.

Lemma filter_cons_length_le l a v :
  length (filter (λ n, n = v) l) ≤ length (filter (λ n, n = v) (a :: l)).
Proof.
  rewrite filter_cons. destruct (decide (a = v)); simpl; lia.
Qed.

Lemma occurs_twice l j1 j2 v :
  l !! j1 = Some v → l !! j2 = Some v → j1 ≠ j2 →
  2 ≤ length (filter (λ n, n = v) l).
Proof.
  revert j1 j2. induction l as [|a l IH]; intros j1 j2 H1 H2 Hne.
  - discriminate.
  - destruct j1 as [|j1], j2 as [|j2]; simpl in *.
    + done.
    + injection H1 as ->. rewrite filter_cons_True by done. simpl.
      pose proof (occurs_at_least_once _ _ _ H2). lia.
    + injection H2 as ->. rewrite filter_cons_True by done. simpl.
      pose proof (occurs_at_least_once _ _ _ H1). lia.
    + etrans; [|apply filter_cons_length_le].
      apply (IH j1 j2); [done|done|lia].
Qed.

Lemma occurs_nowhere l v :
  (∀ j, l !! j ≠ Some v) → filter (λ n, n = v) l = [].
Proof.
  induction l as [|a l IH]; intros Hno; [done|].
  rewrite filter_cons_False.
  - apply IH. intros j. apply (Hno (S j)).
  - intros ->. by apply (Hno 0).
Qed.

Lemma occurs_once l j v :
  l !! j = Some v → (∀ j', l !! j' = Some v → j' = j) →
  length (filter (λ n, n = v) l) = 1.
Proof.
  revert j. induction l as [|a l IH]; intros j Hj Huniq; [discriminate|].
  destruct j as [|j]; simpl in *.
  - injection Hj as ->. rewrite filter_cons_True by done.
    rewrite occurs_nowhere; [done|].
    intros j' Hj'. by specialize (Huniq (S j') Hj').
  - rewrite filter_cons_False.
    + apply (IH j); [done|]. intros j' Hj'.
      specialize (Huniq (S j') Hj'). lia.
    + intros ->. by specialize (Huniq 0 eq_refl).
Qed.

End Occurrences.

(** ** The schema: where its errors come from *)

Lemma elem_of_run_test e passes p ty msg :
  e ∈ run_test passes p ty msg ↔
  passes = false ∧ e = mkValidationError p ty msg.
Proof.
  unfold run_test. destruct passes.
  - split; [intros Hin; by apply not_elem_of_nil in Hin|].
    intros [Hf ?]; discriminate Hf.
  - rewrite list_elem_of_singleton. split; [by intros ->|by intros [_ ->]].
Qed.

Lemma duplicate_label_error_selector i parent j s i' j' :
  duplicate_label_error i' j' ∈ validate_selector i parent j s ↔
  i' = i ∧ j' = j ∧ unique_test (label s) parent = false.
Proof.
  unfold validate_selector, duplicate_label_error.
  rewrite !elem_of_app, !elem_of_run_test. split.
  - intros [[_ [=]]|[[_ [=]]|[[? [= -> ->]]|[_ [=]]]]]. done.
  - intros (-> & -> & ?). right; right; left. done.
Qed.

Lemma duplicate_label_error_injection i inj i' j' :
  duplicate_label_error i' j' ∈ validate_injection i inj ↔
  i' = i ∧ ∃ s, selectors inj !! j' = Some s ∧
                unique_test (label s) inj = false.
Proof.
  unfold validate_injection.
  rewrite !elem_of_app, !elem_of_run_test, list_elem_of_join. split.
  - intros [[_ [=]]|[[_ [=]]|[[_ [=]]|(errs & He & Herrs)]]].
    apply elem_of_lookup_imap in Herrs as (j & s & -> & Hs).
    apply duplicate_label_error_selector in He as (-> & -> & Hu). eauto.
  - intros (-> & s & Hs & Hu). right; right; right.
    exists (validate_selector i inj j' s). split.
    + by apply duplicate_label_error_selector.
    + by apply elem_of_lookup_imap_2.
Qed.

(** The ["unique"] error sits on [injections[i].selectors[j].label]
    exactly when the test fails for that selector against its own
    injection. *)
Lemma duplicate_label_error_validate form i j :
  duplicate_label_error i j ∈ validate form ↔
  ∃ inj s, injections form !! i = Some inj ∧ selectors inj !! j = Some s ∧
           unique_test (label s) inj = false.
Proof.
  unfold validate. rewrite list_elem_of_join. split.
  - intros (errs & He & Herrs).
    apply elem_of_lookup_imap in Herrs as (i' & inj & -> & Hinj).
    apply duplicate_label_error_injection in He as (-> & s & Hs & Hu). eauto.
  - intros (inj & s & Hinj & Hs & Hu).
    exists (validate_injection i inj). split.
    + apply duplicate_label_error_injection. eauto.
    + by apply elem_of_lookup_imap_2.
Qed.

Lemma unique_test_fails_on_shared_label inj j1 j2 s1 s2 :
  selectors inj !! j1 = Some s1 → selectors inj !! j2 = Some s2 →
  j1 ≠ j2 → label s1 = label s2 →
  unique_test (label s1) inj = false.
Proof.
  intros H1 H2 Hne Hl. unfold unique_test.
  assert (Hn1 : (label <$> selectors inj) !! j1 = Some (label s1))
    by by rewrite list_lookup_fmap, H1.
  assert (Hn2 : (label <$> selectors inj) !! j2 = Some (label s1))
    by by rewrite list_lookup_fmap, H2, Hl.
  pose proof (occurs_twice _ _ _ _ Hn1 Hn2 Hne) as Hge.
  apply orb_false_iff. split; apply Nat.eqb_neq.
  - apply lookup_lt_Some in Hn1. lia.
  - lia.
Qed.

Lemma unique_test_passes_on_own_label inj j s :
  selectors inj !! j = Some s →
  (∀ j' s', selectors inj !! j' = Some s' → label s' = label s → j' = j) →
  unique_test (label s) inj = true.
Proof.
  intros Hs Huniq. unfold unique_test.
  apply orb_true_iff. right. apply Nat.eqb_eq.
  apply (occurs_once _ j).
  - by rewrite list_lookup_fmap, Hs.
  - intros j' Hj'. rewrite list_lookup_fmap in Hj'.
    destruct (selectors inj !! j') as [s'|] eqn:Hs'; [|done].
    injection Hj' as Hl. by eapply Huniq.
Qed.

(** ** Duplicate labels *)

(** C1: two selectors of one injection with the same label (compared as
    exact strings) both get the duplicate-label error on their label
    field; a label that is unique inside its own injection gets no
    duplicate-label error, even when a selector of another injection
    carries the same label. *)
Theorem duplicate_label_error_scoped_to_injection (form : FormData) :
  (∀ i inj j1 j2 s1 s2,
     injections form !! i = Some inj →
     selectors inj !! j1 = Some s1 → selectors inj !! j2 = Some s2 →
     j1 ≠ j2 → label s1 = label s2 →
     duplicate_label_error i j1 ∈ validate form ∧
     duplicate_label_error i j2 ∈ validate form)
  ∧
  (∀ i1 i2 inj1 inj2 j1 j2 s1 s2,
     i1 ≠ i2 →
     injections form !! i1 = Some inj1 → injections form !! i2 = Some inj2 →
     selectors inj1 !! j1 = Some s1 → selectors inj2 !! j2 = Some s2 →
     label s1 = label s2 →
     (∀ j' s', selectors inj1 !! j' = Some s' → label s' = label s1 →
               j' = j1) →
     duplicate_label_error i1 j1 ∉ validate form).
Proof.
  split.
  - intros i inj j1 j2 s1 s2 Hinj H1 H2 Hne Hl.
    split; apply duplicate_label_error_validate.
    + exists inj, s1. eauto using unique_test_fails_on_shared_label.
    + exists inj, s2. split_and!; [done..|].
      by apply (unique_test_fails_on_shared_label inj j2 j1 s2 s1).
  - intros i1 i2 inj1 inj2 j1 j2 s1 s2 _ Hinj1 _ H1 _ _ Huniq.
    rewrite duplicate_label_error_validate.
    intros (inj & s & Hinj & Hs & Hu).
    rewrite Hinj1 in Hinj. injection Hinj as <-.
    rewrite H1 in Hs. injection Hs as <-.
    rewrite (unique_test_passes_on_own_label inj1 j1 s1) in Hu; done.
Qed.

Lemma duplicate_label_error_scoped_to_injection_witness :
  (duplicate_label_error 0 0 ∈ validate duplicate_form ∧
   duplicate_label_error 0 1 ∈ validate duplicate_form) ∧
  duplicate_label_error 1 0 ∉ validate duplicate_form.
Proof.
  destruct (duplicate_label_error_scoped_to_injection duplicate_form)
    as [Hsame Hother].
  split.
  - apply (Hsame 0 title_injection 0 1
             (mkSelector "sel-1" "img" "img") (mkSelector "sel-2" "img" "a"));
      [reflexivity|reflexivity|reflexivity|lia|reflexivity].
  - apply (Hother 1 0 description_injection title_injection 0 0
             (mkSelector "sel-3" "img" "p") (mkSelector "sel-1" "img" "img"));
      [lia|reflexivity|reflexivity|reflexivity|reflexivity|reflexivity|].
    intros [|j'] s' Hs' _; [reflexivity|discriminate Hs'].
Defined.

(** C10: the outcome of the duplicate-label test for a label is fixed by
    the multiset of the labels of the injection: it is the same for two
    injections whose label lists are permutations of one another, hence
    after permuting the selectors and after changing the selectors'
    [cssSelector] and [id] in any way; a selector is flagged in the one
    form exactly when a selector with its label is flagged in the
    other. *)
Theorem unique_test_depends_on_label_multiset (inj1 inj2 : ArticleInjection) :
  (label <$> selectors inj1 ≡ₚ label <$> selectors inj2 →
   ∀ value, unique_test value inj1 = unique_test value inj2)
  ∧
  (selectors inj1 ≡ₚ selectors inj2 →
   ∀ value, unique_test value inj1 = unique_test value inj2)
  ∧
  (label <$> selectors inj1 = label <$> selectors inj2 →
   ∀ value, unique_test value inj1 = unique_test value inj2)
  ∧
  (label <$> selectors inj1 ≡ₚ label <$> selectors inj2 →
   ∀ form1 form2 i1 i2 j1 j2 s1 s2,
     injections form1 !! i1 = Some inj1 → injections form2 !! i2 = Some inj2 →
     selectors inj1 !! j1 = Some s1 → selectors inj2 !! j2 = Some s2 →
     label s1 = label s2 →
     (duplicate_label_error i1 j1 ∈ validate form1 ↔
      duplicate_label_error i2 j2 ∈ validate form2)).
Proof.
  assert (Hmain : label <$> selectors inj1 ≡ₚ label <$> selectors inj2 →
                  ∀ value, unique_test value inj1 = unique_test value inj2).
  { intros Hp value. unfold unique_test. cbv zeta. by rewrite Hp. }
  split_and!.
  - done.
  - intros Hp. apply Hmain. by rewrite Hp.
  - intros Heq. apply Hmain. by rewrite Heq.
  - intros Hp form1 form2 i1 i2 j1 j2 s1 s2 Hi1 Hi2 Hs1 Hs2 Hl.
    rewrite !duplicate_label_error_validate. split.
    + intros (inj & s & Hinj & Hs & Hu).
      rewrite Hi1 in Hinj. injection Hinj as <-.
      rewrite Hs1 in Hs. injection Hs as <-.
      exists inj2, s2. split_and!; [done..|].
      by rewrite <-Hl, <-(Hmain Hp).
    + intros (inj & s & Hinj & Hs & Hu).
      rewrite Hi2 in Hinj. injection Hinj as <-.
      rewrite Hs2 in Hs. injection Hs as <-.
      exists inj1, s1. split_and!; [done..|].
      by rewrite Hl, (Hmain Hp).
Qed.

Lemma unique_test_depends_on_label_multiset_witness :
  (∀ value, unique_test value ordered_injection
            = unique_test value swapped_injection) ∧
  (∀ value, unique_test value ordered_injection
            = unique_test value rewritten_injection) ∧
  (duplicate_label_error 0 0 ∈ validate valid_form ↔
   duplicate_label_error 0 1 ∈ validate (mkFormData [swapped_injection])).
Proof.
  destruct (unique_test_depends_on_label_multiset
              ordered_injection swapped_injection)
    as (_ & Hpermuted & _ & Hflagged).
  destruct (unique_test_depends_on_label_multiset
              ordered_injection rewritten_injection)
    as (_ & _ & Hrewritten & _).
  split_and!.
  - apply Hpermuted. apply perm_swap.
  - apply Hrewritten. reflexivity.
  - apply (Hflagged (perm_swap _ _ _) valid_form
             (mkFormData [swapped_injection]) 0 0 0 1
             (mkSelector "sel-1" "img" "img") (mkSelector "sel-1" "img" "img"));
      reflexivity.
Defined.

(** ** Submitting *)

Lemma parseErrorSchema_app errs1 errs2 p :
  parseErrorSchema (errs1 ++ errs2) p
  = match parseErrorSchema errs1 p with
    | Some e => Some e
    | None => parseErrorSchema errs2 p
    end.
Proof.
  induction errs1 as [|e errs1 IH]; simpl; [done|].
  by destruct (decide (path e = p)).
Qed.

Lemma parseErrorSchema_None errs p :
  parseErrorSchema errs p = None ↔ ∀ e, e ∈ errs → path e ≠ p.
Proof.
  induction errs as [|e errs IH]; simpl.
  - split; [|done]. intros _ e Hin. by apply not_elem_of_nil in Hin.
  - destruct (decide (path e = p)) as [Heq|Hne].
    + split; [done|]. intros Hall. exfalso. apply (Hall e); [left|done].
    + rewrite IH. split.
      * intros Hall e' [->|Hin]%elem_of_cons; auto.
      * intros Hall e' Hin. apply Hall. by right.
Qed.

Lemma parseErrorSchema_is_Some errs p :
  is_Some (parseErrorSchema errs p) ↔ ∃ e, e ∈ errs ∧ path e = p.
Proof.
  induction errs as [|e errs IH]; simpl.
  - split; [by intros [? [=]]|]. intros (e & Hin & _).
    by apply not_elem_of_nil in Hin.
  - destruct (decide (path e = p)) as [Heq|Hne].
    + split; [|by eauto]. intros _. exists e. split; [left|done].
    + rewrite IH. split.
      * intros (e' & Hin & Hp). exists e'. split; [by right|done].
      * intros (e' & [->|Hin]%elem_of_cons & Hp); [done|eauto].
Qed.

Lemma min_error_validate form i inj :
  injections form !! i = Some inj → selectors inj = [] →
  mkValidationError (selectors_path i) min None ∈ validate form.
Proof.
  intros Hinj Hnil. unfold validate. apply list_elem_of_join.
  exists (validate_injection i inj). split.
  - unfold validate_injection. rewrite Hnil. simpl.
    rewrite !elem_of_app. right; right. apply list_elem_of_here.
  - by apply elem_of_lookup_imap_2.
Qed.

Lemma submit_invalid env st :
  validate (values st) ≠ [] →
  submit env st = set_errors (parseErrorSchema (validate (values st))) st.
Proof.
  intros Hne. unfold submit, handleSubmit.
  by destruct (validate (values st)).
Qed.

Lemma submit_valid env st :
  validate (values st) = [] →
  submit env st = onSubmit env (values st) (set_errors no_errors st).
Proof. intros Hv. unfold submit, handleSubmit. by rewrite Hv. Qed.

(** C2: when some injection of the form has no selector, the schema
    rejects the values with the [min] error on that injection's
    [selectors], and the submit leaves an error on that field without
    calling the update client; values, baseline and notifications stay
    as they were. *)
Theorem submit_without_selectors_is_rejected (env : Environment)
    (st : Controller) (i : nat) (inj : ArticleInjection) :
  injections (values st) !! i = Some inj →
  selectors inj = [] →
  mkValidationError (selectors_path i) min None ∈ validate (values st) ∧
  validate (values st) ≠ [] ∧
  is_Some (errors (submit env st) (selectors_path i)) ∧
  remote_calls (submit env st) = remote_calls st ∧
  notifications (submit env st) = notifications st ∧
  values (submit env st) = values st ∧
  defaultValues (submit env st) = defaultValues st.
Proof.
  intros Hinj Hnil.
  pose proof (min_error_validate _ _ _ Hinj Hnil) as Hmin.
  assert (Hne : validate (values st) ≠ []).
  { intros Hv. rewrite Hv in Hmin. by apply not_elem_of_nil in Hmin. }
  rewrite (submit_invalid env st Hne). split_and!; try done.
  simpl. apply parseErrorSchema_is_Some. eauto.
Qed.

Lemma submit_without_selectors_is_rejected_witness :
  remote_calls (submit accepting_env (sample_controller hollow_form)) = [] ∧
  validate hollow_form ≠ [].
Proof.
  pose proof (submit_without_selectors_is_rejected accepting_env
                (sample_controller hollow_form) 0
                (mkArticleInjection "inj-1" "title" [])
                eq_refl eq_refl) as (_ & Hne & _ & Hcalls & _).
  split; [exact Hcalls|exact Hne].
Defined.

(** C3: a form that passes the schema is sent to the update client as
    [{ feedId: userFeed.id, data: { articleInjections: injections } }]
    with the whole list of injections; when the client call succeeds the
    submitted values become the baseline, the form is not dirty, and one
    success notification is added. *)
Theorem submit_success_resets_baseline (env : Environment) (st : Controller) :
  validate (values st) = [] →
  let input := mkUpdateUserFeedInput (userFeed_id env) (injections (values st)) in
  remote_calls (submit env st) = remote_calls st ++ [input] ∧
  (mutateAsync env (remote_calls st) input = Fulfilled →
   defaultValues (submit env st) = values st ∧
   values (submit env st) = values st ∧
   isDirty (submit env st) = false ∧
   notifications (submit env st) =
     notifications st
     ++ [success_notification (t env "common.success.savedChanges")]).
Proof.
  intros Hv input. rewrite (submit_valid env st Hv).
  unfold onSubmit, onSubmit_input. simpl. fold input. split.
  - by destruct (mutateAsync env (remote_calls st) input).
  - intros ->. simpl. split_and!; try done.
    unfold isDirty. simpl. apply bool_decide_eq_false. by intros [].
Qed.

Lemma submit_success_resets_baseline_witness :
  let st := submit accepting_env (sample_controller valid_form) in
  remote_calls st = [mkUpdateUserFeedInput "feed-1" (injections valid_form)] ∧
  defaultValues st = valid_form ∧
  isDirty st = false.
Proof.
  destruct (submit_success_resets_baseline accepting_env
              (sample_controller valid_form) eq_refl) as [Hcalls Hok].
  destruct (Hok eq_refl) as (Hdef & _ & Hdirty & _).
  cbv zeta. split_and!; [exact Hcalls|exact Hdef|exact Hdirty].
Defined.

(** C4: when the update client rejects the call, the values, the
    baseline and the dirty flag are what they were before the submit, one
    error notification carries the message of the failure, and the client
    was called exactly once: nothing is retried. *)
Theorem submit_failure_leaves_form_unchanged (env : Environment)
    (st : Controller) (err_message : string) :
  validate (values st) = [] →
  mutateAsync env (remote_calls st) (onSubmit_input env (values st))
    = Rejected err_message →
  values (submit env st) = values st ∧
  defaultValues (submit env st) = defaultValues st ∧
  isDirty (submit env st) = isDirty st ∧
  notifications (submit env st) =
    notifications st
    ++ [error_notification (t env "common.errors.failedToSave") err_message] ∧
  remote_calls (submit env st) =
    remote_calls st ++ [onSubmit_input env (values st)].
Proof.
  intros Hv Hrej. rewrite (submit_valid env st Hv).
  unfold onSubmit. simpl. rewrite Hrej. done.
Qed.

Lemma submit_failure_leaves_form_unchanged_witness :
  let st := sample_controller valid_form in
  values (submit rejecting_env st) = valid_form ∧
  defaultValues (submit rejecting_env st) = mkFormData [] ∧
  isDirty (submit rejecting_env st) = true ∧
  notifications (submit rejecting_env st) =
    [error_notification "common.errors.failedToSave" "Bad Gateway"].
Proof.
  destruct (submit_failure_leaves_form_unchanged rejecting_env
              (sample_controller valid_form) "Bad Gateway" eq_refl eq_refl)
    as (Hval & Hdef & Hdirty & Hnote & _).
  cbv zeta. split_and!; [exact Hval|exact Hdef|exact Hdirty|exact Hnote].
Defined.

(** ** The feed-update client *)

Lemma UpdatFeedOutputSchema_accepts ext body :
  UpdateFeed.UpdatFeedOutputSchema ext body = true ↔
  ∃ members result,
    body = UpdateFeed.JObject members ∧
    UpdateFeed.member "result" members = Some result ∧
    UpdateFeed.FeedSchema ext result = true.
Proof.
  unfold UpdateFeed.UpdatFeedOutputSchema. split.
  - destruct body as [| | | | |members]; try discriminate.
    destruct (UpdateFeed.member "result" members) as [result|] eqn:Hm;
      [|discriminate].
    intros Hs. by exists members, result.
  - intros (members & result & -> & Hm & Hs). by rewrite Hm.
Qed.

Lemma elem_of_defined_members (o : UpdateFeed.Object) key v :
  (key, v) ∈ UpdateFeed.defined_members o ↔ (key, Some v) ∈ o.
Proof.
  induction o as [|[k [w|]] o IH]; simpl.
  - split; intros Hin; by apply not_elem_of_nil in Hin.
  - rewrite !elem_of_cons, IH. split.
    + intros [[= -> ->]|Hin]; auto.
    + intros [[= -> ->]|Hin]; auto.
  - rewrite elem_of_cons, IH. split; [auto|]. by intros [[=]|Hin].
Qed.

(** C5: [updateFeed] sends one [PATCH] request to
    [/api/v1/feeds/<feedId>] whose body is the serialized [details]
    object, with every member of the object that holds a value: when the
    caller's object carries the injections list, so does the body.  The
    call returns the response body exactly when the status is a success
    one and the body is an object whose [result] the feed schema accepts;
    a non-success status and a schema mismatch both fail the call. *)
Theorem updateFeed_request_and_result (ext : UpdateFeed.Externals)
    (options : UpdateFeed.UpdateFeedInput) :
  let request :=
    UpdateFeed.mkRequest
      ("/api/v1/feeds/" +:+ UpdateFeed.feedId options) UpdateFeed.PATCH
      (UpdateFeed.JSON_stringify ext
         (UpdateFeed.details_json (UpdateFeed.details options))) in
  let response := UpdateFeed.server ext request in
  let members :=
    UpdateFeed.object_members
      (UpdateFeed.details_json (UpdateFeed.details options)) in
  (UpdateFeed.updateFeed ext options).1 = [request] ∧
  (∀ key v, (key, v) ∈ members ↔ (key, Some v) ∈ UpdateFeed.details options) ∧
  (∀ injections_json,
     ("articleInjections", Some injections_json) ∈ UpdateFeed.details options →
     ("articleInjections", injections_json) ∈ members) ∧
  (∀ r, (UpdateFeed.updateFeed ext options).2 = inr r ↔
        UpdateFeed.ok response = true ∧
        r = UpdateFeed.response_json response ∧
        ∃ fields result,
          r = UpdateFeed.JObject fields ∧
          UpdateFeed.member "result" fields = Some result ∧
          UpdateFeed.FeedSchema ext result = true) ∧
  (UpdateFeed.ok response = false →
   (UpdateFeed.updateFeed ext options).2 = inl UpdateFeed.TransportError) ∧
  (UpdateFeed.ok response = true →
   UpdateFeed.UpdatFeedOutputSchema ext (UpdateFeed.response_json response)
     = false →
   (UpdateFeed.updateFeed ext options).2 = inl UpdateFeed.SchemaMismatch).
Proof.
  intros request response members.
  unfold UpdateFeed.updateFeed, UpdateFeed.fetchRest. simpl.
  fold request. fold response.
  split_and!.
  - done.
  - intros key v. apply elem_of_defined_members.
  - intros injections_json Hin. by apply elem_of_defined_members.
  - intros r. destruct (UpdateFeed.ok response); [|by split; [|intros []]].
    destruct (UpdateFeed.UpdatFeedOutputSchema ext
                (UpdateFeed.response_json response)) eqn:Hs.
    + split.
      * intros [= <-]. split_and!; [done..|].
        by apply UpdatFeedOutputSchema_accepts.
      * by intros (_ & -> & _).
    + split; [done|]. intros (_ & -> & Hacc).
      apply UpdatFeedOutputSchema_accepts in Hacc. congruence.
  - by intros ->.
  - by intros -> ->.
Qed.

Lemma updateFeed_request_and_result_witness :
  let options :=
    UpdateFeed.mkUpdateFeedInput "42" UpdateFeed.injections_details in
  UpdateFeed.details_declared UpdateFeed.injections_details ∧
  (UpdateFeed.updateFeed UpdateFeed.sample_externals options).1
  = [UpdateFeed.mkRequest "/api/v1/feeds/42" UpdateFeed.PATCH "{...}"] ∧
  (∃ injections_json,
     ("articleInjections", injections_json)
       ∈ UpdateFeed.object_members
           (UpdateFeed.details_json (UpdateFeed.details options))) ∧
  (UpdateFeed.updateFeed UpdateFeed.sample_externals options).2
  = inr (UpdateFeed.response_json UpdateFeed.sample_response).
Proof.
  intros options.
  destruct (updateFeed_request_and_result UpdateFeed.sample_externals options)
    as (Hsent & _ & Hinjections & Hret & _).
  split_and!.
  - intros v Hin. apply list_elem_of_In in Hin. simpl in Hin.
    destruct Hin as [[= <-]|[[=]|[]]]. by eexists.
  - exact Hsent.
  - eexists. apply Hinjections. right. left.
  - apply Hret. split_and!; [reflexivity|reflexivity|].
    eexists _, _. split_and!; reflexivity.
Defined.

(** ** Field-array operations on the selectors of an injection *)

Lemma update_selectors_lookup_eq i f form :
  injections (update_selectors i f form) !! i
  = set_selectors f <$> injections form !! i.
Proof. apply list_lookup_alter_eq. Qed.

Lemma update_selectors_lookup_ne i i' f form :
  i ≠ i' →
  injections (update_selectors i f form) !! i' = injections form !! i'.
Proof. intros Hne. by apply list_lookup_alter_ne. Qed.

Lemma update_selectors_length i f form :
  length (injections (update_selectors i f form)) = length (injections form).
Proof. apply length_alter. Qed.

Section Remove.
Context {A : Type}.
Implicit Types (fields : list A).

Lemma remove_lookup_lt index fields n :
  n < index → remove index fields !! n = fields !! n.
Proof.
  revert index n. induction fields as [|x rest IH]; intros index n Hlt; [done|].
  destruct index as [|k]; [lia|].
  destruct n as [|n]; simpl; [done|]. apply IH. lia.
Qed.

Lemma remove_lookup_ge index fields n :
  index ≤ n → remove index fields !! n = fields !! S n.
Proof.
  revert index n. induction fields as [|x rest IH]; intros index n Hle; [done|].
  destruct index as [|k]; [done|].
  destruct n as [|n]; simpl; [lia|]. apply IH. lia.
Qed.

Lemma remove_length_lt index fields :
  index < length fields → S (length (remove index fields)) = length fields.
Proof.
  revert index. induction fields as [|x rest IH]; intros index Hlt;
    simpl in *; [lia|].
  destruct index as [|k]; simpl; [done|]. rewrite IH; [done|lia].
Qed.

Lemma remove_length_ge index fields :
  length fields ≤ index → remove index fields = fields.
Proof.
  revert index. induction fields as [|x rest IH]; intros index Hle;
    simpl in *; [done|].
  destruct index as [|k]; [lia|]. rewrite IH; [done|lia].
Qed.

Lemma remove_take_drop index fields :
  remove index fields = take index fields ++ drop (S index) fields.
Proof.
  revert index. induction fields as [|x rest IH]; intros index.
  - by destruct index.
  - destruct index as [|k]; simpl; [by rewrite drop_0|]. by rewrite IH.
Qed.

Lemma remove_Forall (P : A → Prop) index fields :
  Forall P fields → Forall P (remove index fields).
Proof.
  intros HP. revert index. induction HP as [|x rest Hx Hrest IH];
    intros index; [done|].
  destruct index as [|k]; simpl; [done|]. constructor; [done|apply IH].
Qed.

End Remove.

Lemma add_selectors_foldl i v4s : ∀ form inj,
  injections form !! i = Some inj →
  injections
    (foldl (λ form v4, add_selector_onClick v4 i form) form v4s) !! i
  = Some (mkArticleInjection (injection_id inj) (sourceField inj)
            (selectors inj ++ ((λ v4, mkSelector v4 "" "") <$> v4s))).
Proof.
  induction v4s as [|v4 v4s IH]; intros form inj Hinj; simpl.
  - rewrite app_nil_r. by destruct inj.
  - rewrite (IH _ (set_selectors
                     (λ fields, append fields (mkSelector v4 "" "")) inj)).
    + simpl. unfold append. by rewrite <-app_assoc.
    + unfold add_selector_onClick.
      by rewrite update_selectors_lookup_eq, Hinj.
Qed.

(** C6, as the code has it: the add-selector button puts exactly one new
    selector at the end of the injection's selectors, with empty [label]
    and [cssSelector] and with the id the generator returned; the
    selectors that were there, the injection's own fields and the other
    injections are unchanged; it does so at every length, so the count is
    unbounded.  The code does not compare the new id with the ids of the
    form: it is distinct from them whenever the generator returned an id
    that the form does not hold. *)
Theorem add_selector_appends_blank_selector (form : FormData) (i : nat)
    (inj : ArticleInjection) (v4 : string) :
  injections form !! i = Some inj →
  let form' := add_selector_onClick v4 i form in
  injections form' !! i
    = Some (mkArticleInjection (injection_id inj) (sourceField inj)
              (selectors inj ++ [mkSelector v4 "" ""])) ∧
  (∀ inj', injections form' !! i = Some inj' →
     length (selectors inj') = S (length (selectors inj)) ∧
     last (selectors inj') = Some (mkSelector v4 "" "") ∧
     (∀ k s, selectors inj !! k = Some s → selectors inj' !! k = Some s) ∧
     (v4 ∉ form_ids form →
      ∀ s, last (selectors inj') = Some s → selector_id s ∉ form_ids form)) ∧
  (∀ i', i' ≠ i → injections form' !! i' = injections form !! i') ∧
  length (injections form') = length (injections form) ∧
  (∀ v4s inj',
     injections
       (foldl (λ form v4, add_selector_onClick v4 i form) form v4s) !! i
       = Some inj' →
     length (selectors inj') = length (selectors inj) + length v4s).
Proof.
  intros Hinj form'.
  assert (Hnew : injections form' !! i
                 = Some (mkArticleInjection (injection_id inj) (sourceField inj)
                           (selectors inj ++ [mkSelector v4 "" ""]))).
  { subst form'. unfold add_selector_onClick.
    by rewrite update_selectors_lookup_eq, Hinj. }
  split_and!.
  - done.
  - intros inj' Hinj'. rewrite Hnew in Hinj'. injection Hinj' as <-. simpl.
    split_and!.
    + rewrite length_app. simpl. lia.
    + apply last_snoc.
    + intros k s Hk. by apply lookup_app_l_Some.
    + intros Hfresh s. rewrite last_snoc. by intros [= <-].
  - intros i' Hne. subst form'. unfold add_selector_onClick.
    by apply update_selectors_lookup_ne.
  - apply update_selectors_length.
  - intros v4s inj'. rewrite (add_selectors_foldl i v4s form inj Hinj).
    intros [= <-]. simpl. by rewrite length_app, length_fmap.
Qed.

Lemma add_selector_appends_blank_selector_witness :
  injections (add_selector_onClick sample_uuid 1 valid_form) !! 1
  = Some (mkArticleInjection "inj-2" "description"
            [mkSelector "sel-3" "img" "p"; mkSelector sample_uuid "" ""]).
Proof.
  exact (proj1 (add_selector_appends_blank_selector valid_form 1
                  description_injection sample_uuid eq_refl)).
Defined.

(** C6 as stated fails: when the generator returns an id that a selector
    of the form already has, the appended selector carries that same id;
    nothing in the handler checks the new id against the form. *)
Lemma add_selector_id_can_repeat_an_existing_id :
  ∃ inj' s,
    injections (add_selector_onClick sample_uuid 0 form_holding_uuid) !! 0
      = Some inj' ∧
    last (selectors inj') = Some s ∧
    selector_id s ∈ form_ids form_holding_uuid.
Proof.
  eexists _, _. split_and!; [reflexivity|reflexivity|].
  unfold form_ids, form_holding_uuid. simpl.
  apply list_elem_of_further, list_elem_of_here.
Qed.

Lemma remove_length_pos {A} index (fields : list A) :
  2 ≤ length fields → 1 ≤ length (remove index fields).
Proof.
  intros Hlen. destruct (decide (index < length fields)) as [Hlt|Hge].
  - pose proof (remove_length_lt index fields Hlt). lia.
  - rewrite remove_length_ge; lia.
Qed.

Lemma delete_onClick_nonempty i j form inj :
  selectors_nonempty form →
  injections form !! i = Some inj → 2 ≤ length (selectors inj) →
  selectors_nonempty (delete_onClick i j form).
Proof.
  unfold selectors_nonempty, delete_onClick, update_selectors. simpl.
  intros Hform Hinj Hlen. apply Forall_alter; [done|].
  intros inj0 Hinj0 _. rewrite Hinj in Hinj0. injection Hinj0 as <-.
  simpl. by apply remove_length_pos.
Qed.

Lemma row_fields_length appended j (live : list Selector) :
  j < length live →
  length (row_fields appended j live) = Nat.max (length live - appended) (S j).
Proof. intros Hj. unfold row_fields. rewrite length_take. lia. Qed.

Lemma pad_lookup n (counts : list nat) i :
  i < n → pad n counts !! i = Some (default 0 (counts !! i)).
Proof.
  intros Hi. unfold pad.
  destruct (decide (i < length counts)) as [Hlt|Hge].
  - rewrite lookup_app_l by done.
    destruct (lookup_lt_is_Some_2 counts i Hlt) as [x Hx]. by rewrite Hx.
  - rewrite lookup_app_r by lia.
    rewrite (lookup_ge_None_2 counts i) by lia. simpl.
    apply lookup_replicate_2. lia.
Qed.

Lemma rows_throw_false form i inj rows :
  injections form !! i = Some inj → rows ≤ length (selectors inj) →
  rows_throw form i rows = false.
Proof.
  intros Hinj Hrows. unfold rows_throw.
  apply not_true_is_false. intros (j & Hj & Hthrow)%existsb_exists.
  apply in_seq in Hj. unfold SelectorForm_throws in Hthrow.
  apply bool_decide_eq_true in Hthrow. unfold watch_selector in Hthrow.
  rewrite Hinj in Hthrow. simpl in Hthrow.
  apply lookup_ge_None in Hthrow. lia.
Qed.

Lemma rows_throw_after_remove form i inj j :
  injections form !! i = Some inj → j < length (selectors inj) →
  rows_throw (delete_onClick i j form) i (length (selectors inj)) = true.
Proof.
  intros Hinj Hj. unfold rows_throw. apply existsb_exists.
  exists (length (selectors inj) - 1). split; [apply in_seq; lia|].
  unfold SelectorForm_throws. apply bool_decide_eq_true.
  unfold watch_selector, delete_onClick.
  rewrite update_selectors_lookup_eq, Hinj. simpl.
  apply lookup_ge_None.
  pose proof (remove_length_lt j (selectors inj) Hj). lia.
Qed.

(** A click on a disabled delete button changes nothing. *)
Lemma delete_row_click_disabled i j st inj :
  crashed st = false →
  injections (tab_form st) !! i = Some inj → j < length (selectors inj) →
  delete_isDisabled (row_fields (rows_appended st i) j (selectors inj)) = true →
  delete_row_click i j st = st.
Proof.
  intros Hrun Hinj Hj Hdis. unfold delete_row_click. rewrite Hinj.
  rewrite bool_decide_eq_true_2 by done. cbv zeta.
  unfold click_delete. rewrite Hdis.
  rewrite (rows_throw_false _ _ inj) by done.
  destruct st. simpl in *. by rewrite Hrun.
Qed.

(** A click on an enabled delete button removes the row from the form,
    and the render that follows throws. *)
Lemma delete_row_click_enabled i j st inj :
  injections (tab_form st) !! i = Some inj → j < length (selectors inj) →
  delete_isDisabled (row_fields (rows_appended st i) j (selectors inj)) = false →
  tab_form (delete_row_click i j st) = delete_onClick i j (tab_form st) ∧
  crashed (delete_row_click i j st) = true ∧
  2 ≤ length (selectors inj).
Proof.
  intros Hinj Hj Hen. unfold delete_row_click. rewrite Hinj.
  rewrite bool_decide_eq_true_2 by done. cbv zeta.
  unfold click_delete. rewrite Hen. simpl. split_and!; [done| |].
  - by apply rows_throw_after_remove.
  - unfold delete_isDisabled in Hen. apply Nat.eqb_neq in Hen.
    rewrite row_fields_length in Hen by done. lia.
Qed.

Lemma delete_row_click_form i j st :
  tab_form (delete_row_click i j st) = tab_form st
  ∨ ∃ inj, injections (tab_form st) !! i = Some inj ∧
           2 ≤ length (selectors inj) ∧
           tab_form (delete_row_click i j st) = delete_onClick i j (tab_form st).
Proof.
  destruct (injections (tab_form st) !! i) as [inj|] eqn:Hinj.
  - destruct (decide (j < length (selectors inj))) as [Hj|Hj].
    + destruct (delete_isDisabled
                  (row_fields (rows_appended st i) j (selectors inj))) eqn:Hd.
      * left. unfold delete_row_click. rewrite Hinj.
        rewrite bool_decide_eq_true_2 by done. cbv zeta.
        unfold click_delete. by rewrite Hd.
      * right. exists inj.
        destruct (delete_row_click_enabled i j st inj Hinj Hj Hd)
          as (Hform & _ & Hlen). done.
    + left. unfold delete_row_click. rewrite Hinj.
      by rewrite bool_decide_eq_false_2.
  - left. unfold delete_row_click. by rewrite Hinj.
Qed.

(** C7, as the code runs: the delete button goes by the selector list
    the row itself holds, not by the injection's selector count.  On an
    injection whose rows mounted with one selector, after one click on
    "Add selector" the count is 2 and the first row's button is still
    disabled: a click on it changes nothing.  The added row's button is
    enabled, and the render after its click throws. *)
Theorem delete_button_reads_a_stale_count (form : FormData) (i : nat)
    (inj : ArticleInjection) (v4 : string) (active : option nat)
    (counts : list nat) :
  injections form !! i = Some inj →
  length (selectors inj) = 1 →
  default 0 (counts !! i) = 0 →
  let st' := step (mkTabState form active counts false) (AddSelector i v4) in
  let live := selectors inj ++ [mkSelector v4 "" ""] in
  injections (tab_form st') !! i
    = Some (mkArticleInjection (injection_id inj) (sourceField inj) live) ∧
  length live = 2 ∧
  delete_isDisabled (row_fields (rows_appended st' i) 0 live) = true ∧
  step st' (ClickDeleteSelector i 0) = st' ∧
  delete_isDisabled (row_fields (rows_appended st' i) 1 live) = false ∧
  crashed (step st' (ClickDeleteSelector i 1)) = true.
Proof.
  intros Hinj Hone Hcount st' live.
  assert (Hlive : injections (tab_form st') !! i
                  = Some (mkArticleInjection (injection_id inj)
                            (sourceField inj) live)).
  { subst st'. unfold step. cbn [crashed]. unfold add_selector_click.
    cbn [tab_form]. unfold add_selector_onClick.
    by rewrite update_selectors_lookup_eq, Hinj. }
  assert (Hlen : length live = 2).
  { subst live. rewrite length_app. simpl. lia. }
  assert (Happ : rows_appended st' i = 1).
  { subst st'. unfold step, rows_appended. simpl.
    rewrite list_lookup_alter_eq, pad_lookup by lia. simpl. by rewrite Hcount. }
  assert (Hrun : crashed st' = false) by done.
  assert (Hfirst : delete_isDisabled (row_fields (rows_appended st' i) 0 live)
                   = true).
  { unfold delete_isDisabled. rewrite row_fields_length by lia.
    apply Nat.eqb_eq. lia. }
  assert (Hadded : delete_isDisabled (row_fields (rows_appended st' i) 1 live)
                   = false).
  { unfold delete_isDisabled. rewrite row_fields_length by lia.
    apply Nat.eqb_neq. lia. }
  split_and!; try done.
  - unfold step. rewrite Hrun.
    apply (delete_row_click_disabled i 0 st' _ Hrun Hlive); simpl; [lia|done].
  - unfold step. rewrite Hrun.
    apply (delete_row_click_enabled i 1 st' _ Hlive); simpl; [lia|done].
Qed.

Lemma delete_button_reads_a_stale_count_witness :
  let st' := step (mounted_tab single_selector_form) (AddSelector 0 "sel-2") in
  step st' (ClickDeleteSelector 0 0) = st' ∧
  crashed (step st' (ClickDeleteSelector 0 1)) = true.
Proof.
  destruct (delete_button_reads_a_stale_count single_selector_form 0
              (mkArticleInjection "inj-1" "title"
                 [mkSelector "sel-1" "img" "img"]) "sel-2" None []
              eq_refl eq_refl eq_refl)
    as (_ & _ & _ & Hnoop & _ & Hcrash).
  split; [exact Hnoop|exact Hcrash].
Defined.

(** C9: the [remove] handler itself has no guard on the length: at a
    valid position it deletes the entry at that position and keeps the
    others in their order (those before it in place, those after it moved
    up by one), in the addressed injection only; on a one-element list it
    gives the empty list, where the click on the button of a row that
    holds a one-element list, a disabled button, gives the form back
    unchanged. *)
Theorem remove_has_no_minimum_length_guard (form : FormData) (i : nat)
    (inj : ArticleInjection) (k : nat) :
  injections form !! i = Some inj →
  k < length (selectors inj) →
  ∃ inj',
    injections (delete_onClick i k form) !! i = Some inj' ∧
    injection_id inj' = injection_id inj ∧
    sourceField inj' = sourceField inj ∧
    selectors inj' = take k (selectors inj) ++ drop (S k) (selectors inj) ∧
    S (length (selectors inj')) = length (selectors inj) ∧
    (∀ n, n < k → selectors inj' !! n = selectors inj !! n) ∧
    (∀ n, k ≤ n → selectors inj' !! n = selectors inj !! S n) ∧
    (∀ i', i' ≠ i →
       injections (delete_onClick i k form) !! i' = injections form !! i') ∧
    (length (selectors inj) = 1 →
     selectors inj' = [] ∧
     ∀ fields, length fields = 1 → click_delete fields i k form = form).
Proof.
  intros Hinj Hk.
  exists (set_selectors (remove k) inj). split_and!.
  - unfold delete_onClick. by rewrite update_selectors_lookup_eq, Hinj.
  - done.
  - done.
  - apply remove_take_drop.
  - by apply remove_length_lt.
  - intros n Hn. by apply remove_lookup_lt.
  - intros n Hn. by apply remove_lookup_ge.
  - intros i' Hne. unfold delete_onClick. by apply update_selectors_lookup_ne.
  - intros Hone. split.
    + simpl. destruct (selectors inj) as [|s [|s' rest]]; simpl in *; [lia| |lia].
      by replace k with 0 by lia.
    + intros fields Hfields. unfold click_delete, delete_isDisabled.
      by rewrite Hfields.
Qed.

Lemma remove_has_no_minimum_length_guard_witness :
  ∃ inj',
    injections (delete_onClick 1 0 valid_form) !! 1 = Some inj' ∧
    selectors inj' = [].
Proof.
  destruct (remove_has_no_minimum_length_guard valid_form 1
              description_injection 0 eq_refl)
    as (inj' & Hinj' & _ & _ & _ & _ & _ & _ & _ & Hone).
  - simpl. lia.
  - exists inj'. split; [exact Hinj'|]. apply Hone. reflexivity.
Defined.

(** ** The preview input *)

Lemma render_previewInput_deps cell injection selector :
  memo_deps (render_previewInput cell injection selector).1
  = previewInput_deps injection selector.
Proof.
  unfold render_previewInput, useMemo. destruct cell as [m|]; [|done].
  by destruct (decide (memo_deps m = previewInput_deps injection selector)).
Qed.

Lemma render_previewInput_recomputed m injection selector :
  (render_previewInput (Some m) injection selector).2 = true ↔
  memo_deps m ≠ previewInput_deps injection selector.
Proof.
  unfold render_previewInput, useMemo.
  destruct (decide (memo_deps m = previewInput_deps injection selector));
    simpl; split; done.
Qed.

Lemma render_previewInput_cached m injection selector :
  (render_previewInput (Some m) injection selector).2 = false →
  (render_previewInput (Some m) injection selector).1 = m.
Proof.
  unfold render_previewInput, useMemo.
  by destruct (decide (memo_deps m = previewInput_deps injection selector)).
Qed.

Lemma previewInput_deps_ne injection0 selector0 injection selector :
  previewInput_deps injection0 selector0 ≠ previewInput_deps injection selector
  ↔ sourceField injection0 ≠ sourceField injection
    ∨ cssSelector selector0 ≠ cssSelector selector
    ∨ label selector0 ≠ label selector.
Proof.
  unfold previewInput_deps. split.
  - intros Hne.
    destruct (decide (sourceField injection0 = sourceField injection)) as [Hf|];
      [|by left].
    destruct (decide (cssSelector selector0 = cssSelector selector)) as [Hc|];
      [|by right; left].
    destruct (decide (label selector0 = label selector)) as [Hl|];
      [|by right; right].
    exfalso. apply Hne. by rewrite Hf, Hc, Hl.
  - intros [Hne|[Hne|Hne]] [= ? ? ?]; done.
Qed.

(** With equal dependencies and equal ids, two renders of a row compute
    the same preview input. *)
Lemma previewInput_factory_same_row injection0 selector0 injection selector :
  injection_id injection0 = injection_id injection →
  selector_id selector0 = selector_id selector →
  previewInput_deps injection0 selector0 = previewInput_deps injection selector →
  previewInput_factory injection0 selector0
  = previewInput_factory injection selector.
Proof.
  destruct injection0, selector0, injection, selector.
  unfold previewInput_deps, previewInput_factory. simpl.
  by intros -> -> [= -> -> ->].
Qed.

Lemma render_previewInput_value injId selId cell injection selector :
  (∀ m, cell = Some m → cell_of_row injId selId m) →
  injection_id injection = injId → selector_id selector = selId →
  memo_value (render_previewInput cell injection selector).1
  = previewInput_factory injection selector.
Proof.
  intros Hcell Hi Hs. unfold render_previewInput, useMemo.
  destruct cell as [m|]; [|done].
  destruct (decide (memo_deps m = previewInput_deps injection selector))
    as [Hdeps|]; [|done].
  destruct (Hcell m eq_refl) as (inj0 & sel0 & Hi0 & Hs0 & Hd0 & Hv0).
  simpl. rewrite Hv0.
  apply previewInput_factory_same_row; congruence.
Qed.

Lemma render_all_app cell renders1 renders2 :
  render_all cell (renders1 ++ renders2)
  = render_all (render_all cell renders1) renders2.
Proof.
  revert cell. induction renders1 as [|[inj sel] rest IH]; intros cell; [done|].
  simpl. apply IH.
Qed.

(** After any renders of one row, the cell holds what the last of them
    would compute, under the last render's dependencies. *)
Lemma render_all_last injId selId renders :
  same_row injId selId renders →
  ∀ m, render_all None renders = Some m →
    cell_of_row injId selId m ∧
    ∀ earlier injection selector,
      renders = earlier ++ [(injection, selector)] →
      memo_deps m = previewInput_deps injection selector.
Proof.
  induction renders as [|[inj sel] renders IH] using rev_ind;
    intros Hrow m Hm; [done|].
  apply Forall_app in Hrow as [Hrow Hlast].
  apply Forall_singleton in Hlast as [Hi Hs]. simpl in Hi, Hs.
  rewrite render_all_app in Hm. simpl in Hm. injection Hm as <-.
  split.
  - exists inj, sel. split_and!; [done|done|apply render_previewInput_deps|].
    eapply render_previewInput_value; [|done..].
    intros m Hm. by apply IH.
  - intros earlier injection selector [_ [= <- <-]]%app_inj_tail.
    apply render_previewInput_deps.
Qed.

(** C8: at every render of a selector row the preview input is the
    one-element list holding an injection with the parent's [id] and
    [sourceField] and with this row's selector as its only selector; the
    factory runs on mount, and afterwards exactly when the parent's
    [sourceField], the selector's [cssSelector] or its [label] differs
    from the previous render; otherwise the stored list is handed out
    again. *)
Theorem previewInput_of_selector_row (injId selId : string)
    (earlier : list (ArticleInjection * Selector))
    (injection : ArticleInjection) (selector : Selector) :
  same_row injId selId (earlier ++ [(injection, selector)]) →
  let cell := render_all None earlier in
  let rendered := render_previewInput cell injection selector in
  memo_value rendered.1
    = [mkArticleInjection (injection_id injection) (sourceField injection)
         [selector]] ∧
  (earlier = [] → rendered.2 = true) ∧
  (∀ earlier' injection0 selector0,
     earlier = earlier' ++ [(injection0, selector0)] →
     (rendered.2 = true ↔
      sourceField injection0 ≠ sourceField injection
      ∨ cssSelector selector0 ≠ cssSelector selector
      ∨ label selector0 ≠ label selector) ∧
     (rendered.2 = false → Some rendered.1 = cell)).
Proof.
  intros Hrow cell rendered.
  apply Forall_app in Hrow as [Hrow Hlast].
  apply Forall_singleton in Hlast as [Hi Hs]. simpl in Hi, Hs.
  split_and!.
  - subst rendered. eapply render_previewInput_value; [|done..].
    intros m Hm. by apply (render_all_last injId selId earlier).
  - intros ->. done.
  - intros earlier' injection0 selector0 Hearlier.
    destruct cell as [m|] eqn:Hcell.
    + destruct (render_all_last injId selId earlier Hrow m Hcell)
        as [_ Hdeps].
      specialize (Hdeps _ _ _ Hearlier). subst rendered. split.
      * rewrite render_previewInput_recomputed, Hdeps.
        apply previewInput_deps_ne.
      * intros Hcached. f_equal. by apply render_previewInput_cached.
    + subst cell. rewrite Hearlier, render_all_app in Hcell. done.
Qed.

Lemma previewInput_of_selector_row_witness :
  let first := (ordered_injection, mkSelector "sel-1" "img" "img") in
  let second := (ordered_injection, mkSelector "sel-1" "image" "img") in
  memo_value (render_previewInput (render_all None [first]) second.1 second.2).1
    = [mkArticleInjection "inj-1" "title" [mkSelector "sel-1" "image" "img"]] ∧
  (render_previewInput (render_all None [first]) second.1 second.2).2 = true.
Proof.
  intros first second.
  destruct (previewInput_of_selector_row "inj-1" "sel-1" [first]
              ordered_injection (mkSelector "sel-1" "image" "img"))
    as (Hvalue & _ & Hlater).
  - repeat constructor.
  - split; [exact Hvalue|].
    apply (Hlater [] ordered_injection (mkSelector "sel-1" "img" "img") eq_refl).
    right; right. discriminate.
Defined.

(** * Further properties *)

(** ** The schema, error by error *)

Lemma string_required_true value : string_required value = true ↔ value ≠ "".
Proof.
  unfold string_required. destruct value; simpl; split; try done.
Qed.

Lemma string_required_false value : string_required value = false ↔ value = "".
Proof.
  unfold string_required. destruct value; simpl; split; try done.
Qed.

Lemma elem_of_validate e form :
  e ∈ validate form ↔
  ∃ i inj, injections form !! i = Some inj ∧ e ∈ validate_injection i inj.
Proof.
  unfold validate. rewrite list_elem_of_join. split.
  - intros (errs & He & Herrs).
    apply elem_of_lookup_imap in Herrs as (i & inj & -> & Hinj). eauto.
  - intros (i & inj & Hinj & He). exists (validate_injection i inj).
    split; [done|]. by apply elem_of_lookup_imap_2.
Qed.

Lemma elem_of_validate_injection e i inj :
  e ∈ validate_injection i inj ↔
  (string_required (injection_id inj) = false ∧
   e = mkValidationError (injection_id_path i) required None)
  ∨ (string_required (sourceField inj) = false ∧
     e = mkValidationError (sourceField_path i) required None)
  ∨ ((1 <=? length (selectors inj)) = false ∧
     e = mkValidationError (selectors_path i) min None)
  ∨ (∃ j s, selectors inj !! j = Some s ∧ e ∈ validate_selector i inj j s).
Proof.
  unfold validate_injection.
  rewrite !elem_of_app, !elem_of_run_test, list_elem_of_join.
  do 3 (apply or_iff_compat_l). split.
  - intros (errs & He & Herrs).
    apply elem_of_lookup_imap in Herrs as (j & s & -> & Hs). eauto.
  - intros (j & s & Hs & He). exists (validate_selector i inj j s).
    split; [done|]. by apply elem_of_lookup_imap_2.
Qed.

Lemma elem_of_validate_selector e i parent j s :
  e ∈ validate_selector i parent j s ↔
  (string_required (selector_id s) = false ∧
   e = mkValidationError (selector_id_path i j) required None)
  ∨ (string_required (label s) = false ∧
     e = mkValidationError (label_path i j) required (Some required_message))
  ∨ (unique_test (label s) parent = false ∧ e = duplicate_label_error i j)
  ∨ (string_required (cssSelector s) = false ∧
     e = mkValidationError (cssSelector_path i j) required
           (Some required_message)).
Proof.
  unfold validate_selector. by rewrite !elem_of_app, !elem_of_run_test.
Qed.

Lemma validate_nil_iff form : validate form = [] ↔ ∀ e, e ∉ validate form.
Proof.
  split.
  - intros -> e. apply not_elem_of_nil.
  - intros Hno. destruct (validate form) as [|e errs]; [done|].
    exfalso. apply (Hno e). apply list_elem_of_here.
Qed.

Section OccurrencesMore.
Context {A : Type} `{EqDecision A}.
Implicit Types (l : list A) (v : A).

Lemma occurs_elsewhere l j v :
  l !! j = Some v → length (filter (λ n, n = v) l) ≠ 1 →
  ∃ j', j' ≠ j ∧ l !! j' = Some v.
Proof.
  revert j. induction l as [|a l IH]; intros j Hj Hcount; [discriminate|].
  destruct j as [|j]; simpl in Hj.
  - injection Hj as ->. rewrite filter_cons_True in Hcount by done.
    simpl in Hcount.
    destruct (filter (λ n, n = v) l) as [|x xs] eqn:Hf; [done|].
    assert (Hx : x ∈ filter (λ n, n = v) l) by (rewrite Hf; left).
    apply list_elem_of_filter in Hx as [-> Hin].
    apply list_elem_of_lookup in Hin as [j' Hj'].
    exists (S j'). split; [lia|done].
  - destruct (decide (a = v)) as [->|Hne].
    + exists 0. split; [lia|done].
    + rewrite filter_cons_False in Hcount by done.
      destruct (IH j Hj Hcount) as (j' & Hne' & Hj').
      exists (S j'). split; [lia|done].
Qed.

End OccurrencesMore.

Lemma unique_test_false_iff inj j s :
  selectors inj !! j = Some s →
  unique_test (label s) inj = false ↔
  ∃ j' s', j' ≠ j ∧ selectors inj !! j' = Some s' ∧ label s' = label s.
Proof.
  intros Hs. split.
  - unfold unique_test. intros [_ Hcount%Nat.eqb_neq]%orb_false_iff.
    assert (Hn : (label <$> selectors inj) !! j = Some (label s))
      by by rewrite list_lookup_fmap, Hs.
    destruct (occurs_elsewhere _ _ _ Hn Hcount) as (j' & Hne & Hj').
    rewrite list_lookup_fmap in Hj'.
    destruct (selectors inj !! j') as [s'|] eqn:Hs'; [|done].
    injection Hj' as Hl. by exists j', s'.
  - intros (j' & s' & Hne & Hs' & Hl).
    by apply (unique_test_fails_on_shared_label inj j j' s s').
Qed.

Lemma unique_test_all_iff inj :
  (∀ j s, selectors inj !! j = Some s → unique_test (label s) inj = true) ↔
  NoDup (label <$> selectors inj).
Proof.
  rewrite NoDup_alt. split.
  - intros Hall j1 j2 x H1 H2.
    destruct (decide (j1 = j2)) as [|Hne]; [done|exfalso].
    rewrite list_lookup_fmap in H1, H2.
    destruct (selectors inj !! j1) as [s1|] eqn:Hs1; [|done].
    destruct (selectors inj !! j2) as [s2|] eqn:Hs2; [|done].
    injection H1 as H1. injection H2 as H2.
    pose proof (unique_test_fails_on_shared_label inj j1 j2 s1 s2
                  Hs1 Hs2 Hne) as Hfail.
    rewrite (Hall j1 s1 Hs1) in Hfail. discriminate Hfail. congruence.
  - intros Hnodup j s Hs.
    apply (unique_test_passes_on_own_label inj j s Hs).
    intros j' s' Hs' Hl. apply (Hnodup j' j (label s)).
    + by rewrite list_lookup_fmap, Hs', <-Hl.
    + by rewrite list_lookup_fmap, Hs.
Qed.

Lemma validate_injection_nil_iff i inj :
  (∀ e, e ∉ validate_injection i inj) ↔ injection_acceptable inj.
Proof.
  unfold injection_acceptable. split.
  - intros Hno. split_and!.
    + apply string_required_true.
      destruct (string_required (injection_id inj)) eqn:Hr; [done|].
      exfalso. eapply Hno, elem_of_validate_injection. eauto.
    + apply string_required_true.
      destruct (string_required (sourceField inj)) eqn:Hr; [done|].
      exfalso. eapply Hno, elem_of_validate_injection. eauto.
    + intros Hnil.
      eapply Hno, elem_of_validate_injection. right; right; left.
      split; [|done]. by rewrite Hnil.
    + apply Forall_lookup. intros j s Hs. unfold selector_filled.
      split_and!; apply string_required_true.
      * destruct (string_required (selector_id s)) eqn:Hr; [done|].
        exfalso. eapply Hno, elem_of_validate_injection.
        do 3 right. exists j, s. split; [done|].
        apply elem_of_validate_selector. eauto.
      * destruct (string_required (label s)) eqn:Hr; [done|].
        exfalso. eapply Hno, elem_of_validate_injection.
        do 3 right. exists j, s. split; [done|].
        apply elem_of_validate_selector. eauto.
      * destruct (string_required (cssSelector s)) eqn:Hr; [done|].
        exfalso. eapply Hno, elem_of_validate_injection.
        do 3 right. exists j, s. split; [done|].
        apply elem_of_validate_selector. eauto 6.
    + apply unique_test_all_iff. intros j s Hs.
      destruct (unique_test (label s) inj) eqn:Hu; [done|].
      exfalso. eapply Hno, elem_of_validate_injection.
      do 3 right. exists j, s. split; [done|].
      apply elem_of_validate_selector. eauto 6.
  - intros (Hid & Hsf & Hne & Hfilled & Hnodup) e.
    rewrite elem_of_validate_injection.
    intros [[Hr _]|[[Hr _]|[[Hr _]|(j & s & Hs & He)]]].
    + by apply string_required_false in Hr.
    + by apply string_required_false in Hr.
    + apply Nat.leb_gt in Hr. destruct (selectors inj); simpl in *; [done|lia].
    + pose proof (Forall_lookup_1 _ _ _ _ Hfilled Hs) as (Hsid & Hl & Hc).
      apply elem_of_validate_selector in He
        as [[Hr _]|[[Hr _]|[[Hr _]|[Hr _]]]].
      * by apply string_required_false in Hr.
      * by apply string_required_false in Hr.
      * pose proof (proj2 (unique_test_all_iff inj) Hnodup j s Hs) as Hu.
        by rewrite Hu in Hr.
      * by apply string_required_false in Hr.
Qed.

(** X1: the schema accepts a form exactly when every injection has a
    non-empty id and source field and at least one selector, every
    selector has a non-empty id, label and CSS selector, and the labels
    of each injection are pairwise distinct. *)
Theorem validate_accepts_iff (form : FormData) :
  validate form = [] ↔ form_acceptable form.
Proof.
  rewrite validate_nil_iff. unfold form_acceptable. rewrite Forall_lookup.
  split.
  - intros Hno i inj Hinj. apply (validate_injection_nil_iff i).
    intros e He. apply (Hno e). apply elem_of_validate. eauto.
  - intros Hall e (i & inj & Hinj & He)%elem_of_validate.
    by apply (validate_injection_nil_iff i inj) in He; [|eapply Hall].
Qed.

Lemma validate_accepts_iff_witness :
  form_acceptable valid_form ∧ ¬ form_acceptable duplicate_form.
Proof.
  split.
  - apply (proj1 (validate_accepts_iff valid_form)). reflexivity.
  - intros Hacc. apply (proj2 (validate_accepts_iff duplicate_form)) in Hacc.
    discriminate Hacc.
Defined.

(** X2: every error the schema reports is attached to a field that
    exists in the form: the path of an error never points past the end of
    the injections or of an injection's selectors. *)
Theorem validate_paths_in_form (form : FormData) (e : ValidationError) :
  e ∈ validate form → path_in_form form (path e).
Proof.
  intros (i & inj & Hinj & He)%elem_of_validate.
  apply elem_of_validate_injection in He
    as [[_ ->]|[[_ ->]|[[_ ->]|(j & s & Hs & He)]]]; simpl; eauto.
  apply elem_of_validate_selector in He
    as [[_ ->]|[[_ ->]|[[_ ->]|[_ ->]]]]; simpl; eauto.
Qed.

Lemma validate_paths_in_form_witness :
  path_in_form duplicate_form (label_path 0 1).
Proof.
  apply (validate_paths_in_form duplicate_form (duplicate_label_error 0 1)).
  vm_compute. right. left.
Defined.

(** X3: the required-field message sits on a selector's label exactly
    when that label is the empty string, and on its CSS selector exactly
    when that is the empty string. *)
Theorem required_message_iff_blank (form : FormData) (i j : nat) :
  (mkValidationError (label_path i j) required (Some required_message)
     ∈ validate form ↔
   ∃ inj s, injections form !! i = Some inj ∧ selectors inj !! j = Some s ∧
            label s = "")
  ∧
  (mkValidationError (cssSelector_path i j) required (Some required_message)
     ∈ validate form ↔
   ∃ inj s, injections form !! i = Some inj ∧ selectors inj !! j = Some s ∧
            cssSelector s = "").
Proof.
  rewrite !elem_of_validate. split; split.
  - intros (i' & inj & Hinj & He).
    apply elem_of_validate_injection in He
      as [[_ [=]]|[[_ [=]]|[[_ [=]]|(j' & s & Hs & He)]]].
    apply elem_of_validate_selector in He
      as [[_ [=]]|[[Hr [= -> ->]]|[[_ [=]]|[_ [=]]]]].
    apply string_required_false in Hr. eauto.
  - intros (inj & s & Hinj & Hs & Hl). exists i, inj. split; [done|].
    apply elem_of_validate_injection. do 3 right. exists j, s.
    split; [done|]. apply elem_of_validate_selector. right; left.
    split; [|done]. by apply string_required_false.
  - intros (i' & inj & Hinj & He).
    apply elem_of_validate_injection in He
      as [[_ [=]]|[[_ [=]]|[[_ [=]]|(j' & s & Hs & He)]]].
    apply elem_of_validate_selector in He
      as [[_ [=]]|[[_ [=]]|[[_ [=]]|[Hr [= -> ->]]]]].
    apply string_required_false in Hr. eauto.
  - intros (inj & s & Hinj & Hs & Hl). exists i, inj. split; [done|].
    apply elem_of_validate_injection. do 3 right. exists j, s.
    split; [done|]. apply elem_of_validate_selector. do 3 right.
    split; [|done]. by apply string_required_false.
Qed.

Lemma required_message_iff_blank_witness :
  mkValidationError (label_path 0 2) required (Some required_message)
    ∈ validate (add_selector_onClick "sel-4" 0 valid_form).
Proof.
  apply (proj1 (required_message_iff_blank
                  (add_selector_onClick "sel-4" 0 valid_form) 0 2)).
  eexists _, _. split_and!; reflexivity.
Defined.

(** X4: the duplicate-label error sits on a selector's label exactly
    when another selector of the same injection has the same label. *)
Theorem duplicate_label_error_iff_shared (form : FormData) (i j : nat) :
  duplicate_label_error i j ∈ validate form ↔
  ∃ inj s j' s',
    injections form !! i = Some inj ∧ selectors inj !! j = Some s ∧
    j' ≠ j ∧ selectors inj !! j' = Some s' ∧ label s' = label s.
Proof.
  rewrite duplicate_label_error_validate. split.
  - intros (inj & s & Hinj & Hs & Hu).
    apply (unique_test_false_iff inj j s Hs) in Hu as (j' & s' & ? & ? & ?).
    by exists inj, s, j', s'.
  - intros (inj & s & j' & s' & Hinj & Hs & Hne & Hs' & Hl).
    exists inj, s. split_and!; [done..|].
    apply (unique_test_false_iff inj j s Hs). eauto.
Qed.

Lemma duplicate_label_error_iff_shared_witness :
  duplicate_label_error 0 0 ∈ validate duplicate_form.
Proof.
  apply (duplicate_label_error_iff_shared duplicate_form 0 0).
  exists title_injection, (mkSelector "sel-1" "img" "img"), 1,
    (mkSelector "sel-2" "img" "a").
  split_and!; [reflexivity|reflexivity|lia|reflexivity|reflexivity].
Defined.

(** ** The errors the resolver keeps *)

Lemma parseErrorSchema_run_test passes p' ty msg p :
  parseErrorSchema (run_test passes p' ty msg) p
  = if passes then None
    else if decide (p' = p) then Some (mkFieldError ty msg) else None.
Proof. destruct passes; simpl; [done|]. by destruct (decide (p' = p)). Qed.

Lemma parseErrorSchema_join ls k seg p :
  ls !! k = Some seg →
  (∀ k' seg', ls !! k' = Some seg' → k' ≠ k → ∀ e, e ∈ seg' → path e ≠ p) →
  parseErrorSchema (mjoin ls) p = parseErrorSchema seg p.
Proof.
  revert k. induction ls as [|l ls IH]; intros [|k] Hk Hothers; simpl in *;
    try done.
  - injection Hk as ->. rewrite parseErrorSchema_app.
    destruct (parseErrorSchema seg p) eqn:Hseg; [done|].
    apply parseErrorSchema_None.
    intros e (seg' & He & Hseg')%list_elem_of_join.
    apply list_elem_of_lookup in Hseg' as [k' Hk'].
    apply (Hothers (S k') seg'); [done|lia|done].
  - rewrite parseErrorSchema_app.
    rewrite (proj2 (parseErrorSchema_None l p)).
    + apply (IH k); [done|]. intros k' seg' Hk' Hne.
      apply (Hothers (S k')); [done|lia].
    + intros e He. apply (Hothers 0 l); [done|lia|done].
Qed.

(** The failures on a field of the selector at [(i, j)] all come from
    the tests of that selector. *)
Lemma parseErrorSchema_validate_selector form i j inj s p :
  p = selector_id_path i j ∨ p = label_path i j ∨ p = cssSelector_path i j →
  injections form !! i = Some inj → selectors inj !! j = Some s →
  parseErrorSchema (validate form) p
  = parseErrorSchema (validate_selector i inj j s) p.
Proof.
  intros Hp Hinj Hs. unfold validate.
  rewrite (parseErrorSchema_join _ i (validate_injection i inj));
    [|by rewrite list_lookup_imap, Hinj|].
  - unfold validate_injection.
    rewrite !parseErrorSchema_app, !parseErrorSchema_run_test.
    assert (Hown : ∀ q, (q = injection_id_path i ∨ q = sourceField_path i
                         ∨ q = selectors_path i) → q ≠ p).
    { intros q [->|[->| ->]]; destruct Hp as [->|[->| ->]]; discriminate. }
    rewrite !(decide_False (P := _ = p)) by (apply Hown; auto).
    rewrite (parseErrorSchema_join _ j (validate_selector i inj j s));
      [|by rewrite list_lookup_imap, Hs|].
    + by repeat match goal with |- context [if ?b then _ else _] =>
                  destruct b end.
    + intros j' errs Hj' Hne e He.
      rewrite list_lookup_imap in Hj'.
      destruct (selectors inj !! j') as [s'|]; [|done].
      injection Hj' as <-.
      apply elem_of_validate_selector in He
        as [[_ ->]|[[_ ->]|[[_ ->]|[_ ->]]]];
        destruct Hp as [->|[->| ->]]; simpl; congruence.
  - intros i' errs Hi' Hne e He.
    rewrite list_lookup_imap in Hi'.
    destruct (injections form !! i') as [inj'|]; [|done].
    injection Hi' as <-.
    apply elem_of_validate_injection in He
      as [[_ ->]|[[_ ->]|[[_ ->]|(j' & s' & _ & He)]]];
      [destruct Hp as [->|[->| ->]]; simpl; congruence..|].
    apply elem_of_validate_selector in He
      as [[_ ->]|[[_ ->]|[[_ ->]|[_ ->]]]];
      destruct Hp as [->|[->| ->]]; simpl; congruence.
Qed.

(** What the resolver keeps on the label and on the CSS selector of a
    selector: on a blank label the required-field error, on a filled-in
    label that a sibling shares the duplicate-label error. *)
Lemma parseErrorSchema_validate_row form i j inj s :
  injections form !! i = Some inj → selectors inj !! j = Some s →
  parseErrorSchema (validate form) (label_path i j)
  = (if string_required (label s) then
       if unique_test (label s) inj then None
       else Some (mkFieldError unique (Some duplicate_message))
     else Some (mkFieldError required (Some required_message)))
  ∧
  parseErrorSchema (validate form) (cssSelector_path i j)
  = (if string_required (cssSelector s) then None
     else Some (mkFieldError required (Some required_message))).
Proof.
  intros Hinj Hs.
  rewrite !(parseErrorSchema_validate_selector form i j inj s) by auto.
  unfold validate_selector.
  rewrite !parseErrorSchema_app, !parseErrorSchema_run_test.
  rewrite !(decide_False (P := selector_id_path i j = _)) by discriminate.
  rewrite !(decide_False (P := label_path i j = cssSelector_path i j))
    by discriminate.
  rewrite !(decide_False (P := cssSelector_path i j = label_path i j))
    by discriminate.
  rewrite !(decide_True (P := label_path i j = label_path i j)) by done.
  rewrite !(decide_True (P := cssSelector_path i j = cssSelector_path i j))
    by done.
  by destruct (string_required (selector_id s)), (string_required (label s)),
       (unique_test (label s) inj), (string_required (cssSelector s)).
Qed.

Lemma submit_errors env st p :
  errors (submit env st) p = parseErrorSchema (validate (values st)) p.
Proof.
  destruct (validate (values st)) as [|e errs] eqn:Hv.
  - rewrite (submit_valid env st Hv). unfold onSubmit. simpl.
    by destruct (mutateAsync env (remote_calls st)
                   (onSubmit_input env (values st))).
  - rewrite submit_invalid; [|by rewrite Hv]. by rewrite Hv.
Qed.

(** ** Adding rows and injections *)

(** X5: after the create-injection modal is submitted, the new injection
    is the last one of the form, it has the given source field and one
    blank selector, the accordion's active index is its position, and
    the injections that were there keep their position and content. *)
Theorem onSubmitted_expands_the_new_injection (st : TabState)
    (v4_injection v4_selector data_sourceField : string) :
  let st' := onSubmitted v4_injection v4_selector data_sourceField st in
  let new :=
    mkArticleInjection v4_injection data_sourceField
      [mkSelector v4_selector "" ""] in
  last (injections (tab_form st')) = Some new ∧
  (∃ k, activeIndex st' = Some k ∧ injections (tab_form st') !! k = Some new) ∧
  length (injections (tab_form st')) = S (length (injections (tab_form st))) ∧
  (∀ k inj, injections (tab_form st) !! k = Some inj →
            injections (tab_form st') !! k = Some inj).
Proof.
  intros st' new. subst st'. unfold onSubmitted, append. simpl. split_and!.
  - apply last_snoc.
  - eexists. split; [done|]. by apply list_lookup_middle.
  - rewrite length_app. simpl. lia.
  - intros k inj Hk. by apply lookup_app_l_Some.
Qed.

Lemma blank_selector_errors i inj j s :
  selectors inj !! j = Some s → label s = "" → cssSelector s = "" →
  ∀ form, injections form !! i = Some inj →
  mkValidationError (label_path i j) required (Some required_message)
    ∈ validate form ∧
  mkValidationError (cssSelector_path i j) required (Some required_message)
    ∈ validate form.
Proof.
  intros Hs Hl Hc form Hinj.
  split; apply elem_of_validate; exists i, inj; (split; [done|]);
    apply elem_of_validate_injection; do 3 right; exists j, s;
    (split; [done|]); apply elem_of_validate_selector.
  - right; left. split; [|done]. by apply string_required_false.
  - do 3 right. split; [|done]. by apply string_required_false.
Qed.

(** X6: a row just added, and the row of an injection just added, fail
    the required test on both of their inputs; a submit in that state
    leaves the required-field error on both inputs and does not call the
    update client. *)
Theorem blank_rows_block_the_submit (env : Environment) (st : Controller) :
  (∀ i inj v4,
     injections (values st) !! i = Some inj →
     let st' := with_values (add_selector_onClick v4 i (values st)) st in
     let j := length (selectors inj) in
     mkValidationError (label_path i j) required (Some required_message)
       ∈ validate (values st') ∧
     mkValidationError (cssSelector_path i j) required (Some required_message)
       ∈ validate (values st') ∧
     errors (submit env st') (label_path i j)
       = Some (mkFieldError required (Some required_message)) ∧
     errors (submit env st') (cssSelector_path i j)
       = Some (mkFieldError required (Some required_message)) ∧
     remote_calls (submit env st') = remote_calls st)
  ∧
  (∀ v4_injection v4_selector data_sourceField (tab : TabState),
     tab_form tab = values st →
     let tab' := onSubmitted v4_injection v4_selector data_sourceField tab in
     let st' := with_values (tab_form tab') st in
     let i := length (injections (values st)) in
     mkValidationError (label_path i 0) required (Some required_message)
       ∈ validate (values st') ∧
     mkValidationError (cssSelector_path i 0) required (Some required_message)
       ∈ validate (values st') ∧
     errors (submit env st') (label_path i 0)
       = Some (mkFieldError required (Some required_message)) ∧
     errors (submit env st') (cssSelector_path i 0)
       = Some (mkFieldError required (Some required_message)) ∧
     remote_calls (submit env st') = remote_calls st).
Proof.
  assert (Hblank : ∀ st' i inj j s,
            injections (values st') !! i = Some inj →
            selectors inj !! j = Some s → label s = "" → cssSelector s = "" →
            remote_calls st' = remote_calls st →
            mkValidationError (label_path i j) required (Some required_message)
              ∈ validate (values st') ∧
            mkValidationError (cssSelector_path i j) required
              (Some required_message) ∈ validate (values st') ∧
            errors (submit env st') (label_path i j)
              = Some (mkFieldError required (Some required_message)) ∧
            errors (submit env st') (cssSelector_path i j)
              = Some (mkFieldError required (Some required_message)) ∧
            remote_calls (submit env st') = remote_calls st).
  { intros st' i inj j s Hinj Hs Hl Hc Hcalls.
    destruct (blank_selector_errors i inj j s Hs Hl Hc (values st') Hinj)
      as [Hlabel Hcss].
    destruct (parseErrorSchema_validate_row (values st') i j inj s Hinj Hs)
      as [Hkeptl Hkeptc].
    rewrite Hl in Hkeptl. rewrite Hc in Hkeptc. simpl in Hkeptl, Hkeptc.
    split_and!; [done|done|by rewrite submit_errors..|].
    rewrite submit_invalid; [done|].
    intros Hnil. rewrite Hnil in Hlabel. by apply not_elem_of_nil in Hlabel. }
  split.
  - intros i inj v4 Hinj st' j.
    apply (Hblank st' i
             (set_selectors (λ fields, append fields (mkSelector v4 "" "")) inj)
             j (mkSelector v4 "" "")); try done.
    + subst st'. unfold with_values. cbn [values].
      unfold add_selector_onClick.
      by rewrite update_selectors_lookup_eq, Hinj.
    + simpl. unfold append. by apply list_lookup_middle.
  - intros v4_injection v4_selector data_sourceField tab Htab tab' st' i.
    apply (Hblank st' i
             (mkArticleInjection v4_injection data_sourceField
                [mkSelector v4_selector "" ""]) 0
             (mkSelector v4_selector "" "")); try done.
    subst st' tab' i. simpl. rewrite Htab. unfold append.
    by apply list_lookup_middle.
Qed.

Lemma blank_rows_block_the_submit_witness :
  remote_calls
    (submit accepting_env
       (with_values (add_selector_onClick "sel-4" 0 valid_form)
          (sample_controller valid_form))) = [].
Proof.
  destruct (blank_rows_block_the_submit accepting_env
              (sample_controller valid_form)) as [Hrow _].
  destruct (Hrow 0 ordered_injection "sel-4" eq_refl)
    as (_ & _ & _ & _ & Hcalls).
  exact Hcalls.
Defined.

(** ** Invariants of the editing session *)

Lemma update_selectors_nonempty i f form :
  (∀ fields, 1 ≤ length fields → 1 ≤ length (f fields)) →
  selectors_nonempty form → selectors_nonempty (update_selectors i f form).
Proof.
  unfold selectors_nonempty, update_selectors. simpl. intros Hf Hform.
  apply Forall_alter; [done|]. intros inj _ Hinj. simpl. by apply Hf.
Qed.

Lemma step_selectors_nonempty st a :
  selectors_nonempty (tab_form st) →
  selectors_nonempty (tab_form (step st a)).
Proof.
  intros Hst. unfold step. destruct (crashed st); [done|].
  destruct a as [i j v|i j v|i v4|i j|v4i v4s sf|i]; simpl.
  - apply update_selectors_nonempty; [|done].
    intros fields. by rewrite length_alter.
  - apply update_selectors_nonempty; [|done].
    intros fields. by rewrite length_alter.
  - apply update_selectors_nonempty; [|done].
    intros fields _. unfold append. rewrite length_app. simpl. lia.
  - destruct (delete_row_click_form i j st)
      as [Hsame|(inj & Hinj & Hlen & Hdel)].
    + by rewrite Hsame.
    + rewrite Hdel. by apply (delete_onClick_nonempty i j _ inj).
  - unfold selectors_nonempty, append. simpl.
    apply Forall_app. split; [done|]. apply Forall_singleton. simpl. lia.
  - unfold selectors_nonempty, delete_injection_onClick. simpl.
    by apply remove_Forall.
Qed.

Lemma min_error_inv form i :
  mkValidationError (selectors_path i) min None ∈ validate form →
  ∃ inj, injections form !! i = Some inj ∧ selectors inj = [].
Proof.
  intros (i' & inj & Hinj & He)%elem_of_validate.
  apply elem_of_validate_injection in He
    as [[_ [=]]|[[_ [=]]|[[Hr [= ->]]|(j & s & _ & He)]]].
  - exists inj. split; [done|]. apply Nat.leb_gt in Hr.
    destruct (selectors inj); simpl in *; [done|lia].
  - apply elem_of_validate_selector in He
      as [[_ [=]]|[[_ [=]]|[[_ [=]]|[_ [=]]]]].
Qed.

(** X7: when every injection of the form has a selector, this still
    holds after any sequence of actions in the tab (typing, adding and
    deleting rows, adding and deleting injections), and the schema never
    reports the minimum-length error. *)
Theorem run_keeps_selectors_nonempty (st : TabState) (actions : list Action) :
  selectors_nonempty (tab_form st) →
  selectors_nonempty (tab_form (run st actions)) ∧
  ∀ i, mkValidationError (selectors_path i) min None
         ∉ validate (tab_form (run st actions)).
Proof.
  intros Hst.
  assert (Hrun : selectors_nonempty (tab_form (run st actions))).
  { unfold run. revert st Hst.
    induction actions as [|a actions IH]; intros st Hst; simpl; [done|].
    apply IH. by apply step_selectors_nonempty. }
  split; [done|]. intros i (inj & Hinj & Hnil)%min_error_inv.
  pose proof (Forall_lookup_1 _ _ _ _ Hrun Hinj) as Hlen.
  simpl in Hlen. rewrite Hnil in Hlen. simpl in Hlen. lia.
Qed.

Lemma run_keeps_selectors_nonempty_witness :
  selectors_nonempty
    (tab_form (run (mounted_tab valid_form) sample_session)).
Proof.
  apply (run_keeps_selectors_nonempty (mounted_tab valid_form)
           sample_session).
  unfold selectors_nonempty. simpl. repeat constructor.
Defined.

(** *** The ids of the form *)

Lemma alter_lookup_None {A} (g : A → A) i (l : list A) :
  l !! i = None → alter g i l = l.
Proof.
  revert i. induction l as [|a l IH]; intros [|i] Hi; simpl in *;
    try done.
  f_equal. by apply IH.
Qed.

Lemma injection_ids_alter_same g i (l : list ArticleInjection) :
  (∀ inj, injection_ids (g inj) = injection_ids inj) →
  injection_ids <$> alter g i l = injection_ids <$> l.
Proof.
  intros Hg. revert i. induction l as [|a l IH]; intros [|i]; simpl;
    try done.
  - by rewrite Hg.
  - f_equal. apply IH.
Qed.

Lemma form_ids_update_same i f form :
  (∀ fields, selector_id <$> f fields = selector_id <$> fields) →
  form_ids (update_selectors i f form) = form_ids form.
Proof.
  intros Hf. unfold form_ids, update_selectors. simpl.
  rewrite injection_ids_alter_same; [done|].
  intros inj. unfold injection_ids. simpl. by rewrite Hf.
Qed.

Lemma selector_ids_alter g j (fields : list Selector) :
  (∀ s, selector_id (g s) = selector_id s) →
  selector_id <$> alter g j fields = selector_id <$> fields.
Proof.
  intros Hg. revert j. induction fields as [|s rest IH]; intros [|j]; simpl;
    try done.
  - by rewrite Hg.
  - f_equal. apply IH.
Qed.

Lemma form_ids_add_selector i v4 (l : list ArticleInjection) inj :
  l !! i = Some inj →
  mjoin (injection_ids
           <$> alter (set_selectors
                        (λ fields, append fields (mkSelector v4 "" ""))) i l)
  ≡ₚ v4 :: mjoin (injection_ids <$> l).
Proof.
  revert i. induction l as [|a l IH]; intros [|i] Hi; simpl in *;
    try done.
  - injection Hi as ->. unfold injection_ids at 1. simpl.
    unfold append. rewrite fmap_app. simpl.
    rewrite <-(Permutation_cons_append (selector_id <$> selectors inj) v4).
    unfold injection_ids at 1. simpl. apply perm_swap.
  - rewrite (IH i Hi). symmetry.
    apply (Permutation_middle (injection_id a :: (selector_id <$> selectors a))).
Qed.

Lemma selector_ids_remove k (fields : list Selector) :
  (selector_id <$> remove k fields) `sublist_of` (selector_id <$> fields).
Proof.
  revert k. induction fields as [|s rest IH]; intros k; simpl; [done|].
  destruct k as [|k]; simpl.
  - by apply sublist_cons.
  - by apply sublist_skip.
Qed.

Lemma form_ids_remove_selector i k (l : list ArticleInjection) :
  mjoin (injection_ids <$> alter (set_selectors (remove k)) i l)
  `sublist_of` mjoin (injection_ids <$> l).
Proof.
  revert i. induction l as [|a l IH]; intros [|i]; simpl; try done.
  - apply sublist_skip, sublist_app; [apply selector_ids_remove|done].
  - apply sublist_skip, sublist_app; [done|apply IH].
Qed.

Lemma form_ids_remove_injection k (l : list ArticleInjection) :
  mjoin (injection_ids <$> remove k l)
  `sublist_of` mjoin (injection_ids <$> l).
Proof.
  revert k. induction l as [|a l IH]; intros k; simpl; [done|].
  destruct k as [|k]; simpl.
  - by apply sublist_cons, sublist_inserts_l.
  - apply sublist_skip, sublist_app; [done|apply IH].
Qed.

Lemma form_ids_delete_row_click i j st :
  form_ids (tab_form (delete_row_click i j st))
  `sublist_of` form_ids (tab_form st).
Proof.
  destruct (delete_row_click_form i j st) as [->|(inj & _ & _ & ->)]; [done|].
  apply form_ids_remove_selector.
Qed.

Lemma step_ids_distinct st a :
  NoDup (form_ids (tab_form st)) →
  NoDup (action_ids a) →
  (∀ x, x ∈ action_ids a → x ∉ form_ids (tab_form st)) →
  NoDup (form_ids (tab_form (step st a))).
Proof.
  intros Hst Hnew Hfresh. unfold step. destruct (crashed st); [done|].
  destruct a as [i j v|i j v|i v4|i j|v4i v4s sf|i]; simpl.
  - unfold label_onChange. rewrite form_ids_update_same; [done|].
    intros fields. by apply selector_ids_alter.
  - unfold cssSelector_onChange. rewrite form_ids_update_same; [done|].
    intros fields. by apply selector_ids_alter.
  - unfold add_selector_onClick, update_selectors, form_ids. simpl.
    destruct (injections (tab_form st) !! i) as [inj|] eqn:Hinj.
    + rewrite (form_ids_add_selector i v4 _ inj Hinj).
      apply NoDup_cons. split; [|done]. apply Hfresh. simpl. left.
    + by rewrite alter_lookup_None.
  - apply (sublist_NoDup _ _ Hst), form_ids_delete_row_click.
  - unfold form_ids, append. simpl. rewrite fmap_app, join_app. simpl.
    apply NoDup_app. split_and!; [done| |done].
    intros x Hx Hin. by apply (Hfresh x).
  - apply (sublist_NoDup _ _ Hst), form_ids_remove_injection.
Qed.

Lemma step_ids_sublist st a :
  action_ids a = [] →
  form_ids (tab_form (step st a)) `sublist_of` form_ids (tab_form st).
Proof.
  intros Hnone. unfold step. destruct (crashed st); [done|].
  destruct a as [i j v|i j v|i v4|i j|v4i v4s sf|i]; simpl; try done.
  - unfold label_onChange. rewrite form_ids_update_same; [done|].
    intros fields. by apply selector_ids_alter.
  - unfold cssSelector_onChange. rewrite form_ids_update_same; [done|].
    intros fields. by apply selector_ids_alter.
  - apply form_ids_delete_row_click.
  - apply form_ids_remove_injection.
Qed.

(** X8: when the ids of the form are pairwise distinct and the generator
    never returns an id the form holds at that moment, nor the same id
    twice within one action, the ids stay pairwise distinct through any
    sequence of actions; through typing and deleting alone, the ids of
    the form are always among those it had, in their order. *)
Theorem run_keeps_ids_distinct (st : TabState) (actions : list Action) :
  (NoDup (form_ids (tab_form st)) →
   generator_fresh st actions →
   NoDup (form_ids (tab_form (run st actions))))
  ∧
  (Forall (λ a, action_ids a = []) actions →
   form_ids (tab_form (run st actions)) `sublist_of` form_ids (tab_form st)).
Proof.
  unfold run. split.
  - revert st.
    induction actions as [|a actions IH]; intros st Hst Hfresh; simpl; [done|].
    destruct Hfresh as (Hnew & Hnot & Hrest).
    apply IH; [|done]. by apply step_ids_distinct.
  - intros Hall. revert st.
    induction Hall as [|a actions Ha Hall IH]; intros st; simpl; [done|].
    etrans; [apply IH|]. by apply step_ids_sublist.
Qed.

Lemma run_keeps_ids_distinct_witness :
  NoDup (form_ids (tab_form (run (mounted_tab valid_form) sample_session))) ∧
  form_ids
    (tab_form
       (run (mounted_tab valid_form)
          [ChangeLabel 0 0 "image"; ClickDeleteSelector 0 1]))
  `sublist_of` form_ids valid_form.
Proof.
  destruct (run_keeps_ids_distinct (mounted_tab valid_form) sample_session)
    as [Hdistinct _].
  destruct (run_keeps_ids_distinct (mounted_tab valid_form)
              [ChangeLabel 0 0 "image"; ClickDeleteSelector 0 1])
    as [_ Hamong].
  split.
  - apply Hdistinct.
    + apply (bool_decide_unpack _). vm_compute. exact I.
    + simpl. split_and!; try exact I;
        try (apply (bool_decide_unpack _); vm_compute; exact I);
        intros x Hx Hin; apply list_elem_of_In in Hx, Hin; simpl in Hx, Hin;
        intuition (subst; discriminate).
  - apply Hamong. repeat constructor.
Defined.

(** *** What the row actions leave alone *)

Lemma update_selectors_identity i f form :
  (λ inj, (injection_id inj, sourceField inj))
    <$> injections (update_selectors i f form)
  = (λ inj, (injection_id inj, sourceField inj)) <$> injections form.
Proof.
  unfold update_selectors. simpl. generalize (injections form). intros l.
  revert i. induction l as [|a l IH]; intros [|i]; simpl; try done.
  f_equal. apply IH.
Qed.

Lemma step_row_action_identity st a :
  is_row_action a = true →
  (λ inj, (injection_id inj, sourceField inj))
    <$> injections (tab_form (step st a))
  = (λ inj, (injection_id inj, sourceField inj)) <$> injections (tab_form st).
Proof.
  intros Hrow. unfold step. destruct (crashed st); [done|].
  destruct a as [i j v|i j v|i v4|i j|v4i v4s sf|i]; simpl; try done;
    try apply update_selectors_identity.
  destruct (delete_row_click_form i j st) as [->|(inj & _ & _ & ->)]; [done|].
  apply update_selectors_identity.
Qed.

Lemma step_edit_ids st a :
  is_edit a = true →
  form_ids (tab_form (step st a)) = form_ids (tab_form st).
Proof.
  intros Hedit. unfold step. destruct (crashed st); [done|].
  destruct a as [i j v|i j v|i v4|i j|v4i v4s sf|i]; simpl; try done;
    apply form_ids_update_same; intros fields;
    by apply selector_ids_alter.
Qed.

(** X9: typing, adding a row and deleting a row never change which
    injections the form has, nor the id or source field of any of them;
    typing alone never changes any id of the form. *)
Theorem row_actions_keep_identities (st : TabState) (actions : list Action) :
  (Forall (λ a, is_row_action a = true) actions →
   (λ inj, (injection_id inj, sourceField inj))
     <$> injections (tab_form (run st actions))
   = (λ inj, (injection_id inj, sourceField inj))
       <$> injections (tab_form st))
  ∧
  (Forall (λ a, is_edit a = true) actions →
   form_ids (tab_form (run st actions)) = form_ids (tab_form st)).
Proof.
  unfold run. split; intros Hall; revert st;
    induction Hall as [|a actions Ha Hall IH]; intros st; simpl; try done;
    rewrite IH.
  - by apply step_row_action_identity.
  - by apply step_edit_ids.
Qed.

Lemma row_actions_keep_identities_witness :
  (λ inj, (injection_id inj, sourceField inj))
    <$> injections
          (tab_form (run (mounted_tab valid_form) sample_row_session))
  = [("inj-1", "title"); ("inj-2", "description")].
Proof.
  destruct (row_actions_keep_identities (mounted_tab valid_form)
              sample_row_session) as [Hrows _].
  apply Hrows. repeat constructor.
Defined.

(** *** Typing and the duplicate-label error *)

Lemma update_selectors_duplicate_error i f form :
  (∀ fields, label <$> f fields = label <$> fields) →
  ∀ i' j',
    duplicate_label_error i' j' ∈ validate (update_selectors i f form) ↔
    duplicate_label_error i' j' ∈ validate form.
Proof.
  intros Hf i' j'. rewrite !duplicate_label_error_validate.
  assert (Hl : ∀ (fields1 fields2 : list Selector) (s : Selector),
            label <$> fields1 = label <$> fields2 →
            fields1 !! j' = Some s →
            ∃ s', fields2 !! j' = Some s' ∧ label s' = label s).
  { intros fields1 fields2 s Heq Hs.
    assert (Hn : (label <$> fields2) !! j' = Some (label s))
      by by rewrite <-Heq, list_lookup_fmap, Hs.
    rewrite list_lookup_fmap in Hn.
    destruct (fields2 !! j') as [s'|]; [|done]. injection Hn as Hn. eauto. }
  assert (Hu : ∀ inj value,
            unique_test value (set_selectors f inj) = unique_test value inj).
  { intros inj value. unfold unique_test. simpl. by rewrite Hf. }
  destruct (decide (i = i')) as [<-|Hne].
  - rewrite update_selectors_lookup_eq. split.
    + intros (inj' & s & Hinj' & Hs & Hfail).
      destruct (injections form !! i) as [inj|] eqn:Hinj; [|done].
      injection Hinj' as <-. simpl in Hs. rewrite Hu in Hfail.
      destruct (Hl _ _ s (Hf (selectors inj)) Hs) as (s' & Hs' & Hlabel).
      exists inj, s'. split_and!; [done..|]. by rewrite Hlabel.
    + intros (inj & s & Hinj & Hs & Hfail). rewrite Hinj. simpl.
      destruct (Hl _ _ s (eq_sym (Hf (selectors inj))) Hs)
        as (s' & Hs' & Hlabel).
      exists (set_selectors f inj), s'. split_and!; [done..|].
      by rewrite Hu, Hlabel.
  - by rewrite update_selectors_lookup_ne.
Qed.

Lemma labels_alter g j (fields : list Selector) :
  (∀ s, label (g s) = label s) →
  label <$> alter g j fields = label <$> fields.
Proof.
  intros Hg. revert j. induction fields as [|s rest IH]; intros [|j]; simpl;
    try done.
  - by rewrite Hg.
  - f_equal. apply IH.
Qed.

(** X10: typing into a CSS-selector input never adds or removes a
    duplicate-label error anywhere in the form, and typing into a label
    input never adds or removes one in another injection. *)
Theorem typing_and_duplicate_label_errors (form : FormData) (i j : nat)
    (value : string) :
  (∀ i' j',
     duplicate_label_error i' j'
       ∈ validate (cssSelector_onChange i j value form) ↔
     duplicate_label_error i' j' ∈ validate form)
  ∧
  (∀ i' j', i' ≠ i →
     (duplicate_label_error i' j' ∈ validate (label_onChange i j value form) ↔
      duplicate_label_error i' j' ∈ validate form)).
Proof.
  split.
  - apply update_selectors_duplicate_error. intros fields.
    by apply labels_alter.
  - intros i' j' Hne. rewrite !duplicate_label_error_validate.
    unfold label_onChange. by rewrite update_selectors_lookup_ne.
Qed.

Lemma typing_and_duplicate_label_errors_witness :
  duplicate_label_error 1 0 ∈ validate (label_onChange 0 0 "p" duplicate_form) ↔
  duplicate_label_error 1 0 ∈ validate duplicate_form.
Proof.
  apply (typing_and_duplicate_label_errors duplicate_form 0 0 "p"). lia.
Defined.

(** ** More on submitting *)

Lemma submit_values env st : values (submit env st) = values st.
Proof.
  destruct (validate (values st)) as [|e errs] eqn:Hv.
  - rewrite (submit_valid env st Hv). unfold onSubmit. simpl.
    by destruct (mutateAsync env (remote_calls st)
                   (onSubmit_input env (values st))).
  - by rewrite submit_invalid; [|by rewrite Hv].
Qed.

(** X11: whatever the outcome (schema errors, a rejected call or a
    successful one), a submit leaves the values the user typed as they
    are.  Afterwards a field has an error exactly when the schema reports
    a failure on it; a blank label has the required-field error, also
    when a sibling is blank too, a filled-in label that a sibling shares
    has the duplicate-label error, and any other label has none. *)
Theorem submit_keeps_values (env : Environment) (st : Controller) :
  values (submit env st) = values st ∧
  (∀ p, is_Some (errors (submit env st) p) ↔
        ∃ e, e ∈ validate (values st) ∧ path e = p) ∧
  (∀ i j inj s,
     injections (values st) !! i = Some inj → selectors inj !! j = Some s →
     (label s = "" →
      errors (submit env st) (label_path i j)
        = Some (mkFieldError required (Some required_message))) ∧
     (label s ≠ "" → unique_test (label s) inj = false →
      errors (submit env st) (label_path i j)
        = Some (mkFieldError unique (Some duplicate_message))) ∧
     (label s ≠ "" → unique_test (label s) inj = true →
      errors (submit env st) (label_path i j) = None)).
Proof.
  split_and!.
  - apply submit_values.
  - intros p. rewrite submit_errors. apply parseErrorSchema_is_Some.
  - intros i j inj s Hinj Hs. rewrite submit_errors.
    rewrite (proj1 (parseErrorSchema_validate_row _ i j inj s Hinj Hs)).
    split_and!.
    + intros Hblank. by rewrite (proj2 (string_required_false _) Hblank).
    + intros Hfilled Hshared.
      by rewrite (proj2 (string_required_true _) Hfilled), Hshared.
    + intros Hfilled Hunique.
      by rewrite (proj2 (string_required_true _) Hfilled), Hunique.
Qed.

Lemma submit_keeps_values_witness :
  let st := submit accepting_env
              (sample_controller
                 (add_selector_onClick "sel-5" 0
                    (add_selector_onClick "sel-4" 0 duplicate_form))) in
  errors st (label_path 0 2)
    = Some (mkFieldError required (Some required_message)) ∧
  errors st (label_path 0 0)
    = Some (mkFieldError unique (Some duplicate_message)).
Proof.
  destruct (submit_keeps_values accepting_env
              (sample_controller
                 (add_selector_onClick "sel-5" 0
                    (add_selector_onClick "sel-4" 0 duplicate_form))))
    as (_ & _ & Hlabels).
  cbv zeta. split.
  - apply (Hlabels 0 2 _ (mkSelector "sel-4" "" "") eq_refl eq_refl).
    reflexivity.
  - apply (Hlabels 0 0 _ (mkSelector "sel-1" "img" "img") eq_refl eq_refl);
      [discriminate|reflexivity].
Defined.

Lemma submit_iter_values env st n :
  values (Nat.iter n (submit env) st) = values st.
Proof.
  induction n as [|n IH]; simpl; [done|]. by rewrite submit_values.
Qed.

(** X12: the submit has no guard on the dirty flag: each submit of a
    form that passes the schema calls the update client once more with
    the same feed id and injections, also right after a successful save
    with nothing changed. *)
Theorem every_submit_calls_the_client (env : Environment) (st : Controller)
    (n : nat) :
  validate (values st) = [] →
  remote_calls (Nat.iter n (submit env) st)
  = remote_calls st ++ replicate n (onSubmit_input env (values st)).
Proof.
  intros Hv. induction n as [|n IH]; simpl.
  - by rewrite app_nil_r.
  - rewrite submit_valid by by rewrite submit_iter_values.
    rewrite submit_iter_values. unfold onSubmit. simpl.
    destruct (mutateAsync env _ _); simpl;
      by rewrite IH, <-app_assoc, <-replicate_cons_app.
Qed.

Lemma every_submit_calls_the_client_witness :
  remote_calls (Nat.iter 2 (submit accepting_env) (sample_controller valid_form))
  = [mkUpdateUserFeedInput "feed-1" (injections valid_form);
     mkUpdateUserFeedInput "feed-1" (injections valid_form)].
Proof.
  exact (every_submit_calls_the_client accepting_env
           (sample_controller valid_form) 2 eq_refl).
Defined.

(** X13: after a rejected call the user can submit again: when the
    second call succeeds, the untouched values become the baseline, the
    form is not dirty, and the error notification of the first attempt is
    followed by the success notification. *)
Theorem submit_can_be_retried (env : Environment) (st : Controller)
    (err_message : string) :
  validate (values st) = [] →
  let input := onSubmit_input env (values st) in
  mutateAsync env (remote_calls st) input = Rejected err_message →
  mutateAsync env (remote_calls st ++ [input]) input = Fulfilled →
  let st' := submit env (submit env st) in
  values st' = values st ∧
  defaultValues st' = values st ∧
  isDirty st' = false ∧
  remote_calls st' = remote_calls st ++ [input; input] ∧
  notifications st' =
    notifications st
    ++ [error_notification (t env "common.errors.failedToSave") err_message;
        success_notification (t env "common.success.savedChanges")].
Proof.
  intros Hv input Hfirst Hsecond st'. subst st'.
  assert (Hone : submit env st
                 = notifyError (t env "common.errors.failedToSave") err_message
                     (record_call input (set_errors no_errors st))).
  { rewrite (submit_valid env st Hv). unfold onSubmit. simpl. fold input.
    by rewrite Hfirst. }
  rewrite Hone. rewrite submit_valid by done.
  unfold onSubmit. simpl. fold input. rewrite Hsecond. simpl.
  split_and!; try done.
  - unfold isDirty. simpl. apply bool_decide_eq_false. by intros [].
  - by rewrite <-app_assoc.
  - by rewrite <-app_assoc.
Qed.

Lemma submit_can_be_retried_witness :
  let st' := submit flaky_env (submit flaky_env (sample_controller valid_form)) in
  defaultValues st' = valid_form ∧
  notifications st' =
    [error_notification "common.errors.failedToSave" "Bad Gateway";
     success_notification "common.success.savedChanges"].
Proof.
  destruct (submit_can_be_retried flaky_env (sample_controller valid_form)
              "Bad Gateway" eq_refl eq_refl eq_refl)
    as (_ & Hdef & _ & _ & Hnote).
  cbv zeta. split; [exact Hdef|exact Hnote].
Defined.

(** ** The initial state *)

Lemma copied_selectors (fields : list Selector) :
  (λ f, mkSelector (selector_id f) (label f) (cssSelector f)) <$> fields
  = fields.
Proof.
  induction fields as [|[sid lab css] fields IH]; [done|].
  by rewrite fmap_cons, IH.
Qed.

Lemma initial_injections_Some l : initial_injections (Some l) = l.
Proof.
  unfold initial_injections. change (default [] (Some l)) with l.
  induction l as [|[iid sf sels] l IH]; [done|].
  rewrite fmap_cons, IH. cbn [injection_id sourceField selectors].
  by rewrite copied_selectors.
Qed.

(** X14: the form starts from the feed's injections, copied field by
    field and in order (none when the feed has no such property), and it
    starts clean; submitted untouched, a form that passes the schema
    sends these same injections back. *)
Theorem initial_form_round_trips (env : Environment)
    (userFeed_articleInjections : option (list ArticleInjection)) :
  let st := useForm_initial userFeed_articleInjections in
  injections (values st) = default [] userFeed_articleInjections ∧
  isDirty st = false ∧
  (validate (values st) = [] →
   remote_calls (submit env st)
   = [mkUpdateUserFeedInput (userFeed_id env)
        (default [] userFeed_articleInjections)]).
Proof.
  intros st.
  assert (Hinit : injections (values st) = default [] userFeed_articleInjections).
  { subst st. simpl. destruct userFeed_articleInjections as [l|]; [|done].
    apply initial_injections_Some. }
  split_and!.
  - done.
  - unfold isDirty. apply bool_decide_eq_false. by intros [].
  - intros Hv. rewrite (submit_valid env st Hv).
    unfold onSubmit, onSubmit_input. rewrite Hinit.
    by destruct (mutateAsync env _ _).
Qed.

Lemma initial_form_round_trips_witness :
  remote_calls
    (submit accepting_env (useForm_initial (Some (injections valid_form))))
  = [mkUpdateUserFeedInput "feed-1" (injections valid_form)].
Proof.
  destruct (initial_form_round_trips accepting_env
              (Some (injections valid_form))) as (_ & _ & Hsend).
  exact (Hsend eq_refl).
Defined.

(** ** The request of the feed-update client *)

(** X15: [updateFeed] addresses the feed by its id alone: two calls that
    send the same request were given the same feed id. *)
Theorem updateFeed_request_identifies_the_feed (ext : UpdateFeed.Externals)
    (options1 options2 : UpdateFeed.UpdateFeedInput) :
  (UpdateFeed.updateFeed ext options1).1
  = (UpdateFeed.updateFeed ext options2).1 →
  UpdateFeed.feedId options1 = UpdateFeed.feedId options2.
Proof.
  unfold UpdateFeed.updateFeed, UpdateFeed.fetchRest. simpl.
  by intros [= Hurl _].
Qed.

Lemma updateFeed_request_identifies_the_feed_witness :
  UpdateFeed.feedId
    (UpdateFeed.mkUpdateFeedInput "42" UpdateFeed.text_details)
  = UpdateFeed.feedId
      (UpdateFeed.mkUpdateFeedInput "42" UpdateFeed.injections_details).
Proof.
  apply (updateFeed_request_identifies_the_feed UpdateFeed.sample_externals).
  reflexivity.
Defined.

(** ** Adding and then deleting *)

Lemma remove_snoc {A} (fields : list A) (x : A) :
  remove (length fields) (fields ++ [x]) = fields.
Proof. induction fields as [|a fields IH]; simpl; [done|]. by rewrite IH. Qed.

Lemma alter_restores {A} (g : A → A) i (l : list A) x :
  l !! i = Some x → g x = x → alter g i l = l.
Proof.
  revert i. induction l as [|a l IH]; intros [|i] Hi Hg; simpl in *;
    try done.
  - injection Hi as ->. by rewrite Hg.
  - f_equal. by apply IH.
Qed.

Lemma delete_onClick_after_add i inj v4 form :
  injections form !! i = Some inj →
  delete_onClick i (length (selectors inj)) (add_selector_onClick v4 i form)
  = form.
Proof.
  intros Hinj.
  unfold delete_onClick, add_selector_onClick, update_selectors. simpl.
  destruct form as [l]. simpl in *. f_equal.
  rewrite list_alter_alter_eq. apply (alter_restores _ _ _ inj Hinj).
  unfold set_selectors, append. simpl. rewrite remove_snoc. by destruct inj.
Qed.

(** X17: deleting the row that was just added gives the form back,
    provided the injection had a selector before; deleting the injection
    that was just added always gives the form back.  (On an injection
    without selectors the added row is the only one, and its delete
    button is disabled.)  [fields] is the list the added row holds, which
    has the length of the injection's list after the addition. *)
Theorem add_then_delete_restores (form : FormData) :
  (∀ i inj v4 fields,
     injections form !! i = Some inj → 1 ≤ length (selectors inj) →
     length fields = S (length (selectors inj)) →
     click_delete fields i (length (selectors inj))
       (add_selector_onClick v4 i form)
     = form)
  ∧
  (∀ i inj v4 fields,
     injections form !! i = Some inj → selectors inj = [] →
     length fields = 1 →
     click_delete fields i 0 (add_selector_onClick v4 i form)
     = add_selector_onClick v4 i form)
  ∧
  (∀ v4_injection v4_selector data_sourceField (tab : TabState),
     tab_form tab = form →
     tab_form
       (delete_injection_click (length (injections form))
          (onSubmitted v4_injection v4_selector data_sourceField tab))
     = form)
  ∧
  (∀ i inj v4 (tab : TabState),
     tab_form tab = form → crashed tab = false →
     injections form !! i = Some inj → 1 ≤ length (selectors inj) →
     tab_form
       (run tab [AddSelector i v4; ClickDeleteSelector i (length (selectors inj))])
     = form).
Proof.
  split_and!.
  - intros i inj v4 fields Hinj Hlen Hfields.
    unfold click_delete, delete_isDisabled. rewrite Hfields.
    replace (S (length (selectors inj)) =? 1) with false
      by (symmetry; apply Nat.eqb_neq; lia).
    by apply delete_onClick_after_add.
  - intros i inj v4 fields Hinj Hnil Hfields.
    unfold click_delete, delete_isDisabled. by rewrite Hfields.
  - intros v4_injection v4_selector data_sourceField tab Htab.
    unfold delete_injection_click, onSubmitted, delete_injection_onClick,
      append. simpl. rewrite Htab, remove_snoc. by destruct form.
  - intros i inj v4 tab Htab Hrun Hinj Hlen. unfold run. simpl.
    set (tab' := step tab (AddSelector i v4)).
    assert (Hform' : tab_form tab' = add_selector_onClick v4 i form).
    { subst tab'. unfold step. rewrite Hrun. simpl. by rewrite Htab. }
    assert (Hrun' : crashed tab' = false).
    { subst tab'. unfold step. by rewrite Hrun. }
    assert (Hinj' : injections (tab_form tab') !! i
                    = Some (set_selectors
                              (λ fields, append fields (mkSelector v4 "" ""))
                              inj)).
    { rewrite Hform'. unfold add_selector_onClick.
      by rewrite update_selectors_lookup_eq, Hinj. }
    unfold step at 1. rewrite Hrun'.
    destruct (delete_row_click_enabled i (length (selectors inj)) tab' _ Hinj')
      as (Hdel & _ & _).
    + simpl. unfold append. rewrite length_app. simpl. lia.
    + unfold delete_isDisabled. rewrite row_fields_length.
      * apply Nat.eqb_neq. lia.
      * simpl. unfold append. rewrite length_app. simpl. lia.
    + rewrite Hdel, Hform'. by apply delete_onClick_after_add.
Qed.

Lemma add_then_delete_restores_witness :
  click_delete
    (selectors ordered_injection ++ [mkSelector "sel-4" "" ""]) 0 2
    (add_selector_onClick "sel-4" 0 valid_form) = valid_form ∧
  tab_form
    (run (mounted_tab valid_form) [AddSelector 0 "sel-4"; ClickDeleteSelector 0 2])
  = valid_form.
Proof.
  destruct (add_then_delete_restores valid_form) as (Hrow & _ & _ & Hrun).
  split.
  - apply (Hrow 0 ordered_injection "sel-4");
      [reflexivity|simpl; lia|reflexivity].
  - apply (Hrun 0 ordered_injection "sel-4" (mounted_tab valid_form));
      [reflexivity|reflexivity|reflexivity|simpl; lia].
Defined.
